(** * GreekNTapp: book registry, verse navigation and user translations

    A shallow embedding of [data_structures.py]: the canonical table of New
    Testament books with its four lookup dictionaries, [get_book_data],
    [navigate_verse] with its two extent scans [get_max_chapter] and
    [get_max_verse], and the user-translation store written by
    [save_user_translation].

    Python integers are [Z], Python strings are [string], dictionaries are
    [gmap], and a raised exception is the [Raise] case of [result]. *)

From Stdlib Require Import ZArith Lia Ascii.
From stdpp Require Import base option list gmap strings pretty.

Open Scope string_scope.
Open Scope Z_scope.

(** ** Python values and exceptions *)

(** The two kinds of Python value that occur as a book identifier and as a
    component of a book-data tuple. *)
Inductive pyval : Type :=
  | PInt (n : Z)
  | PStr (s : string).

(** Python's [==] on these values: an [int] never equals a [str]. *)
Definition py_eq (a b : pyval) : bool :=
  match a, b with
  | PInt x, PInt y => x =? y
  | PStr x, PStr y => String.eqb x y
  | _, _ => false
  end.

(** [ValueError msg arg] is [raise ValueError(f"{msg}: {arg}")]; [KeyError]
    and [IndexError] are what a failed dictionary or list subscript raises. *)
Inductive exn : Type :=
  | ValueError (msg : string) (arg : pyval)
  | KeyError (key : pyval)
  | IndexError (idx : nat).

Inductive result (A : Type) : Type :=
  | Ok (a : A)
  | Raise (e : exn).
Arguments Ok {A} a.
Arguments Raise {A} e.

#[global] Instance result_ret : MRet result := fun A a => Ok a.
#[global] Instance result_bind : MBind result := fun A B f m =>
  match m with
  | Ok a => f a
  | Raise e => Raise e
  end.

(** ** Equality is decidable on the data *)

#[global] Instance pyval_eq_dec : EqDecision pyval.
Proof. solve_decision. Defined.

(** ** The canonical book table *)

(** One tuple of [NEW_TESTAMENT]; field [book_i] is the tuple's item [i]. *)
Record book : Type := Book {
  book_0 : Z;
  book_1 : string;
  book_2 : string;
  book_3 : string;
  book_4 : string
}.

#[global] Instance book_eq_dec : EqDecision book.
Proof. solve_decision. Defined.

Definition NEW_TESTAMENT : list book := [
  Book 1 "Matthew" "Mt" "The Gospel According to Matthew" "Matt";
  Book 2 "Mark" "Mk" "The Gospel According to Mark" "Mark";
  Book 3 "Luke" "Lk" "The Gospel According to Luke" "Luke";
  Book 4 "John" "Jn" "The Gospel According to John" "John";
  Book 5 "Acts" "Acts" "The Acts of the Apostles" "Acts";
  Book 6 "Romans" "Rom" "The Letter to the Romans" "Rom";
  Book 7 "1 Corinthians" "1Co" "The First Letter to the Corinthians" "1Cor";
  Book 8 "2 Corinthians" "2Co" "The Second Letter to the Corinthians" "2Cor";
  Book 9 "Galatians" "Gal" "The Letter to the Galatians" "Gal";
  Book 10 "Ephesians" "Eph" "The Letter to the Ephesians" "Eph";
  Book 11 "Philippians" "Phil" "The Letter to the Philippians" "Phil";
  Book 12 "Colossians" "Col" "The Letter to the Colossians" "Col";
  Book 13 "1 Thessalonians" "1Th" "The First Letter to the Thessalonians" "1Thess";
  Book 14 "2 Thessalonians" "2Th" "The Second Letter to the Thessalonians" "2Thess";
  Book 15 "1 Timothy" "1Ti" "The First Letter to Timothy" "1Tim";
  Book 16 "2 Timothy" "2Ti" "The Second Letter to Timothy" "2Tim";
  Book 17 "Titus" "Tit" "The Letter to Titus" "Titus";
  Book 18 "Philemon" "Phm" "The Letter to Philemon" "Philem";
  Book 19 "Hebrews" "Heb" "The Letter to the Hebrews" "Heb";
  Book 20 "James" "Jas" "The Letter of James" "Jas";
  Book 21 "1 Peter" "1Pe" "The First Letter of Peter" "1Pet";
  Book 22 "2 Peter" "2Pe" "The Second Letter of Peter" "2Pet";
  Book 23 "1 John" "1Jn" "The First Letter of John" "1John";
  Book 24 "2 John" "2Jn" "The Second Letter of John" "2John";
  Book 25 "3 John" "3Jn" "The Third Letter of John" "3John";
  Book 26 "Jude" "Jude" "The Letter of Jude" "Jude";
  Book 27 "Revelation" "Rev" "The Revelation to John" "Rev"
].

(** A value of the lookup dictionaries: a 3-tuple.  [item0 d] is [d[0]]. *)
Definition data : Type := pyval * pyval * pyval.
Definition item0 (d : data) : pyval := d.1.1.

(** A dict comprehension [{key(b): val(b) for b in books}]: entries are
    stored in list order, a later one replacing an earlier one that has the
    same key. *)
Definition dict_of `{Countable K} {V : Type}
    (key : book -> K) (val : book -> V) (books : list book) : gmap K V :=
  foldl (fun d b => <[key b := val b]> d) ∅ books.

Definition SHORT_NAME_TO_DATA : gmap string data :=
  dict_of book_1
    (fun b => (PInt (book_0 b), PStr (book_2 b), PStr (book_4 b))) NEW_TESTAMENT.
Definition NUMBER_TO_DATA : gmap Z data :=
  dict_of book_0
    (fun b => (PStr (book_1 b), PStr (book_2 b), PStr (book_4 b))) NEW_TESTAMENT.
Definition ABBREV_TO_DATA : gmap string data :=
  dict_of book_2
    (fun b => (PInt (book_0 b), PStr (book_1 b), PStr (book_4 b))) NEW_TESTAMENT.
Definition KJV_ABBREV_TO_DATA : gmap string data :=
  dict_of book_4
    (fun b => (PInt (book_0 b), PStr (book_1 b), PStr (book_2 b))) NEW_TESTAMENT.

(** [get_book_data]: an [int] is looked up by number only; a string is tried
    as short name, then abbreviation, then KJV abbreviation. *)
Definition get_book_data (identifier : pyval) : option data :=
  match identifier with
  | PInt n => NUMBER_TO_DATA !! n
  | PStr s =>
      match SHORT_NAME_TO_DATA !! s with
      | Some d => Some d
      | None =>
          match ABBREV_TO_DATA !! s with
          | Some d => Some d
          | None => KJV_ABBREV_TO_DATA !! s
          end
      end
  end.

(** ** The verse store *)

(** A row yielded by [morphgnt_rows].  Navigation reads a row only through
    [int(row['bcv'][2:4])] and [int(row['bcv'][4:])]; the two fields are those
    integers. *)
Record row : Type := Row {
  bcv_chapter : Z;
  bcv_verse : Z
}.

(** The loop of [navigate_verse] that finds [book_idx]:
    [for idx, book in enumerate(NEW_TESTAMENT): if book[0] == book_num: ...].
    When the test succeeds [book_num] equals the integer [book[0]], which is
    returned with the index so that the rest of the function has the book
    number as an integer. *)
Fixpoint find_book_idx (book_num : pyval) (books : list book) (idx : nat)
    : option (Z * nat) :=
  match books with
  | [] => None
  | b :: rest =>
      if py_eq (PInt (book_0 b)) book_num then Some (book_0 b, idx)
      else find_book_idx book_num rest (S idx)
  end.

(** Lines 307-318 of [navigate_verse]: resolve [current_book] to its number
    and to its index in [NEW_TESTAMENT], or raise. *)
Definition locate_book (current_book : pyval) : result (Z * nat) :=
  match get_book_data current_book with
  | None => Raise (ValueError "Unknown book" current_book)
  | Some book_data =>
      let book_num := item0 book_data in
      match find_book_idx book_num NEW_TESTAMENT 0 with
      | None => Raise (ValueError "Book not found in NEW_TESTAMENT" current_book)
      | Some r => Ok r
      end
  end.

(** [NUMBER_TO_DATA[book_num][0]]. *)
Definition number_name (book_num : Z) : result pyval :=
  match NUMBER_TO_DATA !! book_num with
  | Some d => Ok (item0 d)
  | None => Raise (KeyError (PInt book_num))
  end.

(** [NEW_TESTAMENT[i]] for an index that is not negative. *)
Definition book_at (i : nat) : result book :=
  match NEW_TESTAMENT !! i with
  | Some b => Ok b
  | None => Raise (IndexError i)
  end.

Section Navigation.

(** [morphgnt_rows(book_num)]: the rows of one book, in the order the
    provider yields them. *)
Variable morphgnt_rows : Z -> list row.

Definition get_max_chapter (book_num : Z) : Z :=
  foldl (fun max_chapter r =>
           let c := bcv_chapter r in
           if c >? max_chapter then c else max_chapter)
        0 (morphgnt_rows book_num).

Definition get_max_verse (book_num chapter : Z) : Z :=
  foldl (fun max_verse r =>
           let c := bcv_chapter r in
           let v := bcv_verse r in
           if (c =? chapter) && (v >? max_verse) then v else max_verse)
        0 (morphgnt_rows book_num).

Definition navigate_verse (current_book : pyval)
    (current_chapter current_verse : Z) (mode : string)
    : result (pyval * Z * Z) :=
  '(book_num, book_idx) ← locate_book current_book;
  if String.eqb mode "next_verse" then
    let max_verse := get_max_verse book_num current_chapter in
    if current_verse <? max_verse then
      name ← number_name book_num;
      Ok (name, current_chapter, current_verse + 1)
    else
      let max_chapter := get_max_chapter book_num in
      if current_chapter <? max_chapter then
        name ← number_name book_num;
        Ok (name, current_chapter + 1, 1)
      else if Z.of_nat book_idx <? Z.of_nat (length NEW_TESTAMENT) - 1 then
        next_book ← book_at (book_idx + 1);
        Ok (PStr (book_1 next_book), 1, 1)
      else
        name ← number_name book_num;
        Ok (name, current_chapter, current_verse)
  else if String.eqb mode "previous_verse" then
    if current_verse >? 1 then
      name ← number_name book_num;
      Ok (name, current_chapter, current_verse - 1)
    else if current_chapter >? 1 then
      let prev_chapter := current_chapter - 1 in
      let prev_max_verse := get_max_verse book_num prev_chapter in
      name ← number_name book_num;
      Ok (name, prev_chapter, prev_max_verse)
    else if Z.of_nat book_idx >? 0 then
      prev_book ← book_at (book_idx - 1);
      let prev_book_num := book_0 prev_book in
      let prev_max_chapter := get_max_chapter prev_book_num in
      let prev_max_verse := get_max_verse prev_book_num prev_max_chapter in
      Ok (PStr (book_1 prev_book), prev_max_chapter, prev_max_verse)
    else
      name ← number_name book_num;
      Ok (name, current_chapter, current_verse)
  else if String.eqb mode "start_of_chapter" then
    if current_verse =? 1 then
      if current_chapter >? 1 then
        name ← number_name book_num;
        Ok (name, current_chapter - 1, 1)
      else if Z.of_nat book_idx >? 0 then
        prev_book ← book_at (book_idx - 1);
        let prev_book_num := book_0 prev_book in
        let prev_max_chapter := get_max_chapter prev_book_num in
        Ok (PStr (book_1 prev_book), prev_max_chapter, 1)
      else
        name ← number_name book_num;
        Ok (name, current_chapter, current_verse)
    else
      name ← number_name book_num;
      Ok (name, current_chapter, 1)
  else if String.eqb mode "start_of_next_chapter" then
    let max_chapter := get_max_chapter book_num in
    if current_chapter <? max_chapter then
      name ← number_name book_num;
      Ok (name, current_chapter + 1, 1)
    else if Z.of_nat book_idx <? Z.of_nat (length NEW_TESTAMENT) - 1 then
      next_book ← book_at (book_idx + 1);
      Ok (PStr (book_1 next_book), 1, 1)
    else
      name ← number_name book_num;
      Ok (name, current_chapter, current_verse)
  else
    Raise (ValueError "Unknown navigation mode" (PStr mode)).

End Navigation.


(** An address as the GUI holds it: [(current_book, current_chapter,
    current_verse)]; [navigate] is the GUI's call
    [navigate_verse(self.current_book, self.current_chapter,
    self.current_verse, mode)]. *)
Definition address : Type := pyval * Z * Z.

Definition navigate (morphgnt_rows : Z -> list row) (A : address) (mode : string)
    : result address :=
  let '(current_book, current_chapter, current_verse) := A in
  navigate_verse morphgnt_rows current_book current_chapter current_verse mode.

(** ** The user-translation file *)

(** The JSON document of [usertranslations.json]: book, then [str(chapter)],
    then [str(verse)], then the text.  [json.load] builds a tree, no inner
    dictionary is shared between two places, so the in-place assignment
    through the two [setdefault] calls is the nested update below.  The map
    records which keys hold which values; the order in which the file lists
    its keys is not represented. *)
Abbreviation translations_t := (gmap string (gmap string (gmap string string))).

(** [None] is the state in which the file does not exist. *)
Definition file_state : Type := option translations_t.

(** Python's [str] on an [int]: decimal digits, [-] in front when negative. *)
Definition py_str (n : Z) : string := pretty n.

Definition load_user_translations (file : file_state) : translations_t :=
  match file with
  | None => ∅
  | Some translations => translations
  end.

(** Returns the document that [json.dump] writes to the file. *)
Definition save_user_translation (file : file_state) (book : string)
    (chapter verse : Z) (translation : string) : file_state :=
  let translations := load_user_translations file in
  let chapters := default ∅ (translations !! book) in
  let verses := default ∅ (chapters !! py_str chapter) in
  Some (<[book := <[py_str chapter := <[py_str verse := translation]> verses]> chapters]>
          translations).

Definition load_user_translation (file : file_state) (book : string)
    (chapter verse : Z) : option string :=
  match file with
  | None => None
  | Some translations =>
      default ∅ (default ∅ (translations !! book) !! py_str chapter) !! py_str verse
  end.

(** ** Vocabulary of the specification *)

(** [current_book] resolves to the registry entry [b], found at offset [idx]
    of the canonical order: the registry answers with [b]'s position. *)
Definition resolves (current_book : pyval) (idx : nat) (b : book) : Prop :=
  NEW_TESTAMENT !! idx = Some b /\
  item0 <$> get_book_data current_book = Some (PInt (book_0 b)).

(** The neighbours of offset [idx] in canonical order. *)
Definition next_book (idx : nat) : option book := NEW_TESTAMENT !! S idx.
Definition prev_book (idx : nat) : option book :=
  match idx with
  | O => None
  | S i => NEW_TESTAMENT !! i
  end.

(** A valid address names a book by its full name and lies within the
    extents of the store. *)
Definition valid_address (rows : Z -> list row) (A : address) : Prop :=
  let '(bk, c, v) := A in
  exists b, b ∈ NEW_TESTAMENT /\ bk = PStr (book_1 b) /\
            1 <= c <= get_max_chapter rows (book_0 b) /\
            1 <= v <= get_max_verse rows (book_0 b) c.

(** The address has a record in the store. *)
Definition has_record (rows : Z -> list row) (book_num c v : Z) : Prop :=
  exists r, r ∈ rows book_num /\ bcv_chapter r = c /\ bcv_verse r = v.

Definition is_first_verse (A : address) : Prop :=
  exists b, head NEW_TESTAMENT = Some b /\ A = (PStr (book_1 b), 1, 1).

Definition is_last_verse (rows : Z -> list row) (A : address) : Prop :=
  exists b, last NEW_TESTAMENT = Some b /\
            A = (PStr (book_1 b), get_max_chapter rows (book_0 b),
                 get_max_verse rows (book_0 b) (get_max_chapter rows (book_0 b))).

(** What the table says about the entry at offset [idx]. *)
Definition entry_ok (idx : nat) (b : book) : Prop :=
  book_0 b = Z.of_nat idx + 1 /\
  find_book_idx (PInt (book_0 b)) NEW_TESTAMENT 0 = Some (book_0 b, idx) /\
  number_name (book_0 b) = Ok (PStr (book_1 b)) /\
  item0 <$> get_book_data (PStr (book_1 b)) = Some (PInt (book_0 b)) /\
  item0 <$> get_book_data (PStr (book_2 b)) = Some (PInt (book_0 b)) /\
  item0 <$> get_book_data (PStr (book_4 b)) = Some (PInt (book_0 b)).

(** One step of a running maximum over the rows that pass [keep]; both
    extent scans fold this step from 0. *)
Definition scan_step (keep : row -> bool) (val : row -> Z) (m : Z) (r : row) : Z :=
  if keep r && (val r >? m) then val r else m.

(** ** Two small stores *)

(** Every book has two chapters, of two and three verses; the rows are not
    in reading order. *)
Definition sample_rows (book_num : Z) : list row :=
  [Row 2 1; Row 1 2; Row 2 3; Row 1 1; Row 2 2].

(** As [sample_rows], but the provider has no row for Matthew. *)
Definition gap_rows (book_num : Z) : list row :=
  if book_num =? 1 then [] else sample_rows book_num.

(** ** Further functions of [data_structures.py] *)

(** A dict literal [{k1: v1, k2: v2, ...}]: a later entry replaces an
    earlier one with the same key. *)
Definition py_dict `{Countable K} {V : Type} (items : list (K * V)) : gmap K V :=
  foldl (fun d kv => <[kv.1 := kv.2]> d) ∅ items.

(** [range(start, stop, step)] as the list of its values; a zero step
    raises [ValueError("range() arg 3 must not be zero")] (the exception
    carries no argument, the step stands in for it). *)
Definition py_range (start stop step : Z) : result (list Z) :=
  if step =? 0 then Raise (ValueError "range() arg 3 must not be zero" (PInt step))
  else if 0 <? step then
    Ok ((fun k => start + k * step) <$> seqZ 0 ((stop - start + step - 1) / step))
  else
    Ok ((fun k => start + k * step) <$> seqZ 0 ((start - stop - step - 1) / (- step))).

(** A slice bound of a list of length [len]: a negative bound counts from the
    end, and every bound is clipped to the list. *)
Definition slice_index (len i : Z) : Z :=
  if i <? 0 then Z.max 0 (len + i) else Z.min i len.

(** [lst[lo:hi]]. *)
Definition py_slice {A : Type} (lst : list A) (lo hi : Z) : list A :=
  let len := Z.of_nat (length lst) in
  let a := slice_index len lo in
  let b := slice_index len hi in
  take (Z.to_nat (b - a)) (drop (Z.to_nat a) lst).

(** [chunks(lst, n)]: the values the generator yields, in order. *)
Definition chunks {A : Type} (lst : list A) (n : Z) : result (list (list A)) :=
  match py_range 0 (Z.of_nat (length lst)) n with
  | Ok idxs => Ok ((fun i => py_slice lst i (i + n)) <$> idxs)
  | Raise e => Raise e
  end.

(** The table of [interpret_ccat_parse]: one label and one mapping per
    position of the parsing code.  A character of the code is the
    one-character string at that position; a [string] here is a sequence of
    8-bit characters, which covers the ASCII codes of MorphGNT. *)
Definition parse_map : list (string * gmap string string) := [
  ("Person", py_dict [("1", "1st person"); ("2", "2nd person"); ("3", "3rd person")]);
  ("Tense", py_dict [("P", "present"); ("I", "imperfect"); ("F", "future");
                     ("A", "aorist"); ("X", "perfect"); ("Y", "pluperfect")]);
  ("Voice", py_dict [("A", "active"); ("M", "middle"); ("P", "passive")]);
  ("Mood", py_dict [("I", "indicative"); ("D", "imperative"); ("S", "subjunctive");
                    ("O", "optative"); ("N", "infinitive"); ("P", "participle")]);
  ("Case", py_dict [("N", "nominative"); ("G", "genitive"); ("D", "dative");
                    ("A", "accusative")]);
  ("Number", py_dict [("S", "singular"); ("P", "plural")]);
  ("Gender", py_dict [("M", "masculine"); ("F", "feminine"); ("N", "neuter")]);
  ("Degree", py_dict [("C", "comparative"); ("S", "superlative")])
].

(** One turn of the loop of [interpret_ccat_parse], at position [i]. *)
Definition parse_step (ccat_parse : string) (i : nat)
    (mapping : gmap string string) (result : list string) : list string :=
  if (i <? String.length ccat_parse)%nat then
    match String.get i ccat_parse with
    | Some ch =>
        let char := String ch "" in
        if negb (String.eqb char "-") then
          match mapping !! char with
          | Some value => if negb (String.eqb value "") then result ++ [value] else result
          | None => result
          end
        else result
    | None => result
    end
  else result.

(** [for i, (label, mapping) in enumerate(parse_map): ...], from index [i]. *)
Fixpoint parse_loop (ccat_parse : string) (table : list (string * gmap string string))
    (i : nat) (result : list string) : list string :=
  match table with
  | [] => result
  | (label, mapping) :: rest =>
      parse_loop ccat_parse rest (S i) (parse_step ccat_parse i mapping result)
  end.

Definition interpret_ccat_parse (ccat_parse : string) : string :=
  match parse_loop ccat_parse parse_map 0 [] with
  | [] => ccat_parse
  | result => String.concat ", " result
  end.

(** A row of the provider as [get_greek_text] reads it: the three integers
    of [bcv] and the five fields that are copied. *)
Record morphgnt_row : Type := MorphgntRow {
  mr_book : Z;
  mr_chapter : Z;
  mr_verse : Z;
  mr_text : string;
  mr_word : string;
  mr_lemma : string;
  mr_ccat_pos : string;
  mr_ccat_parse : string
}.

(** The dictionary [get_greek_text] builds for a row. *)
Record verse_word : Type := VerseWord {
  w_text : string;
  w_word : string;
  w_lemma : string;
  w_pos : string;
  w_parse : string
}.

(** What navigation reads of a provider row. *)
Definition nav_row (r : morphgnt_row) : row := Row (mr_chapter r) (mr_verse r).

(** The outcome of [get_greek_text]: the list it returns, the [TypeError] of
    subscripting [None], or whatever the provider raises. *)
Inductive greek_result : Type :=
  | GreekWords (verse_text : list verse_word)
  | GreekTypeError
  | GreekProviderError.

Section GreekText.

(** [morphgnt_rows] on a book number, and on an argument that is not a
    number ([None] when the provider raises): [get_greek_text] passes it
    whatever item 0 of the book data is. *)
Variable morphgnt_rows : Z -> list morphgnt_row.
Variable morphgnt_rows_str : string -> option (list morphgnt_row).

Definition get_greek_text (book : pyval) (chapter verse : Z) : greek_result :=
  match get_book_data book with
  | None => GreekTypeError
  | Some book_data =>
      let book_num := item0 book_data in
      let provided :=
        match book_num with
        | PInt n => Some (morphgnt_rows n)
        | PStr s => morphgnt_rows_str s
        end in
      match provided with
      | None => GreekProviderError
      | Some rows =>
          GreekWords
            (omap (fun r =>
                     if py_eq (PInt (mr_book r)) book_num
                        && (mr_chapter r =? chapter) && (mr_verse r =? verse)
                     then Some (VerseWord (mr_text r) (mr_word r) (mr_lemma r)
                                          (mr_ccat_pos r) (mr_ccat_parse r))
                     else None) rows)
      end
  end.

(** The rows as [navigate_verse] sees them. *)
Definition nav_rows (book_num : Z) : list row := nav_row <$> morphgnt_rows book_num.

End GreekText.

(** ** A function of [translation_helper_gui.py] *)

(** [in_range(ch, vs)] of [build_range_html], with the four bounds it
    closes over. *)
Definition in_range (start_chapter start_verse end_chapter end_verse ch vs : Z) : bool :=
  if (ch <? start_chapter) || (ch >? end_chapter) then false
  else if (ch =? start_chapter) && (vs <? start_verse) then false
  else if (ch =? end_chapter) && (vs >? end_verse) then false
  else true.

(** ** Reading order *)

(** A place is the offset of a book, a chapter and a verse; places are
    ordered as they are read. *)
Definition place : Type := nat * Z * Z.

Definition place_lt (p q : place) : Prop :=
  let '(i, c, v) := p in
  let '(j, d, w) := q in
  (i < j)%nat \/ (i = j /\ (c < d \/ (c = d /\ v < w))).

(** [A] is the address of place [p]: its book is the full name of the entry
    at the place's offset. *)
Definition address_at (A : address) (p : place) : Prop :=
  let '(bk, c, v) := A in
  let '(i, d, w) := p in
  c = d /\ v = w /\ exists b, NEW_TESTAMENT !! i = Some b /\ bk = PStr (book_1 b).

Definition is_mode (mode : string) : Prop :=
  mode = "next_verse" \/ mode = "previous_verse" \/
  mode = "start_of_chapter" \/ mode = "start_of_next_chapter".

(** ** The registry *)

Lemma py_eq_true a b : py_eq a b = true <-> a = b.
Proof.
  destruct a, b; simpl; try (split; [discriminate | congruence]).
  - rewrite Z.eqb_eq. split; congruence.
  - rewrite String.eqb_eq. split; congruence.
Qed.

Lemma dict_of_lookup `{Countable K} {V : Type} (key : book -> K) (val : book -> V)
    (books : list book) (k : K) (v : V) :
  dict_of key val books !! k = Some v ->
  exists b, b ∈ books /\ key b = k /\ v = val b.
Proof.
  unfold dict_of.
  assert (G : forall d0 : gmap K V,
    foldl (fun d b => <[key b := val b]> d) d0 books !! k = Some v ->
    d0 !! k = Some v \/ exists b, b ∈ books /\ key b = k /\ v = val b).
  { induction books as [|a rest IH]; intros d0 Hl; simpl in Hl.
    - by left.
    - destruct (IH _ Hl) as [Hi | (b & Hb & Hk & Hv)].
      + apply lookup_insert_Some in Hi as [[Hk Hv] | [_ Hd]].
        * right. exists a. split; [left | done].
        * by left.
      + right. exists b. split; [by right | done]. }
  intros Hl. destruct (G ∅ Hl) as [He | Hb]; [| done].
  by rewrite lookup_empty in He.
Qed.

Lemma find_book_idx_Some book_num books k n idx :
  find_book_idx book_num books k = Some (n, idx) ->
  book_num = PInt n /\ (k <= idx)%nat /\
  exists b, books !! (idx - k)%nat = Some b /\ book_0 b = n.
Proof.
  revert k. induction books as [|a rest IH]; intros k Hf;
    cbn [find_book_idx] in Hf; [done |].
  destruct (py_eq (PInt (book_0 a)) book_num) eqn:E.
  - apply py_eq_true in E. injection Hf as <- <-.
    split; [done |]. split; [lia |].
    exists a. by rewrite Nat.sub_diag.
  - destruct (IH _ Hf) as (Hn & Hk & b & Hb & H0).
    split; [done |]. split; [lia |].
    exists b. split; [| done].
    replace (idx - k)%nat with (S (idx - S k)) by lia. done.
Qed.

Lemma find_book_idx_str s books k : find_book_idx (PStr s) books k = None.
Proof. revert k. induction books as [|a rest IH]; intros k; simpl; auto. Qed.

Lemma registry_entries idx b : NEW_TESTAMENT !! idx = Some b -> entry_ok idx b.
Proof.
  assert (G : Forall (fun p => entry_ok p.1 p.2) (imap pair NEW_TESTAMENT)).
  { repeat (apply Forall_cons_2; [repeat split; vm_compute; reflexivity |]).
    apply Forall_nil_2. }
  intros Hb. rewrite Forall_lookup in G.
  apply (G idx (idx, b)). by rewrite list_lookup_imap, Hb.
Qed.

Lemma registry_length : length NEW_TESTAMENT = 27%nat.
Proof. reflexivity. Qed.

Lemma registry_position idx b :
  NEW_TESTAMENT !! idx = Some b -> 1 <= book_0 b <= 27.
Proof.
  intros Hb. pose proof (lookup_lt_Some _ _ _ Hb) as Hlt.
  rewrite registry_length in Hlt.
  destruct (registry_entries _ _ Hb) as [Hp _]. lia.
Qed.

(** A string that the registry knows is answered with the position of one of
    the table's entries. *)
Lemma get_book_data_str s d :
  get_book_data (PStr s) = Some d ->
  exists idx b, NEW_TESTAMENT !! idx = Some b /\ item0 d = PInt (book_0 b).
Proof.
  cbn [get_book_data]. intros Hd.
  assert (G : exists b, b ∈ NEW_TESTAMENT /\ item0 d = PInt (book_0 b)).
  { destruct (SHORT_NAME_TO_DATA !! s) as [d1|] eqn:E1.
    { injection Hd as ->. apply dict_of_lookup in E1 as (b & Hb & _ & ->). eauto. }
    destruct (ABBREV_TO_DATA !! s) as [d2|] eqn:E2.
    { injection Hd as ->. apply dict_of_lookup in E2 as (b & Hb & _ & ->). eauto. }
    apply dict_of_lookup in Hd as (b & Hb & _ & ->). eauto. }
  destruct G as (b & Hb & H0).
  apply list_elem_of_lookup in Hb as [idx Hb]. eauto.
Qed.

(** A number that the registry knows is answered with the full name, not
    with the position. *)
Lemma get_book_data_int n d :
  get_book_data (PInt n) = Some d -> exists s, item0 d = PStr s.
Proof.
  cbn [get_book_data]. intros Hd.
  apply dict_of_lookup in Hd as (b & _ & _ & ->). by exists (book_1 b).
Qed.

Lemma locate_book_resolves cb idx b :
  resolves cb idx b -> locate_book cb = Ok (book_0 b, idx).
Proof.
  intros [Hb Hr]. unfold locate_book.
  destruct (get_book_data cb) as [d|]; [| done].
  cbn in Hr. injection Hr as ->.
  destruct (registry_entries _ _ Hb) as (_ & Hf & _). by rewrite Hf.
Qed.

Lemma locate_book_Ok cb n idx :
  locate_book cb = Ok (n, idx) -> exists b, resolves cb idx b /\ book_0 b = n.
Proof.
  unfold locate_book. destruct (get_book_data cb) as [d|] eqn:Hd; [| done].
  destruct (find_book_idx (item0 d) NEW_TESTAMENT 0) as [[n' idx']|] eqn:Hf; [| done].
  intros [= -> ->].
  apply find_book_idx_Some in Hf as (H0 & _ & b & Hb & Hn).
  rewrite Nat.sub_0_r in Hb. exists b. split; [| done].
  split; [done |]. rewrite Hd. cbn. by rewrite H0, Hn.
Qed.

(** An integer identifier never gets past the first lines of
    [navigate_verse]. *)
Lemma locate_book_int n :
  locate_book (PInt n) =
    Raise (ValueError (match NUMBER_TO_DATA !! n with
                       | Some _ => "Book not found in NEW_TESTAMENT"
                       | None => "Unknown book"
                       end) (PInt n)).
Proof.
  unfold locate_book. cbn [get_book_data].
  destruct (NUMBER_TO_DATA !! n) as [d|] eqn:Hd; [| done].
  destruct (get_book_data_int n d Hd) as [s ->].
  by rewrite find_book_idx_str.
Qed.

Lemma number_name_resolved idx b :
  NEW_TESTAMENT !! idx = Some b -> number_name (book_0 b) = Ok (PStr (book_1 b)).
Proof. intros Hb. by destruct (registry_entries _ _ Hb) as (_ & _ & Hn & _). Qed.

Lemma next_book_cases idx :
  ((Z.of_nat idx <? Z.of_nat (length NEW_TESTAMENT) - 1) = true /\
   exists nb, book_at (idx + 1) = Ok nb /\ next_book idx = Some nb) \/
  ((Z.of_nat idx <? Z.of_nat (length NEW_TESTAMENT) - 1) = false /\
   next_book idx = None).
Proof.
  unfold next_book, book_at. rewrite Nat.add_1_r.
  destruct (Z.ltb_spec (Z.of_nat idx) (Z.of_nat (length NEW_TESTAMENT) - 1)) as [Hlt|Hge].
  - left. split; [done |].
    destruct (lookup_lt_is_Some_2 NEW_TESTAMENT (S idx)) as [nb Hnb]; [lia |].
    exists nb. by rewrite Hnb.
  - right. split; [done |]. apply lookup_ge_None. lia.
Qed.

Lemma prev_book_cases idx :
  (idx < length NEW_TESTAMENT)%nat ->
  ((Z.of_nat idx >? 0) = true /\
   exists pb, book_at (idx - 1) = Ok pb /\ prev_book idx = Some pb) \/
  ((Z.of_nat idx >? 0) = false /\ idx = 0%nat /\ prev_book idx = None).
Proof.
  intros Hlt. unfold prev_book, book_at. destruct idx as [|i].
  - right. done.
  - left. split; [apply Z.gtb_lt; lia |]. cbn [Nat.sub]. rewrite Nat.sub_0_r.
    destruct (lookup_lt_is_Some_2 NEW_TESTAMENT i) as [pb Hpb]; [lia |].
    exists pb. by rewrite Hpb.
Qed.

(** Rewrites the first lines of [navigate_verse] for a resolved book. *)
Ltac nav_start Hres :=
  let Hb := fresh "Hb" in
  pose proof (proj1 Hres) as Hb;
  unfold navigate, navigate_verse;
  rewrite (locate_book_resolves _ _ _ Hres);
  cbn [mbind result_bind String.eqb Ascii.eqb Bool.eqb];
  rewrite ?(number_name_resolved _ _ Hb).

(** ** The four directives on a resolved book *)

Section Directives.

Variable rows : Z -> list row.
Variables (cb : pyval) (idx : nat) (b : book).
Hypothesis Hres : resolves cb idx b.
Variables c v : Z.

Lemma nav_next_verse :
  navigate_verse rows cb c v "next_verse" =
    Ok (if decide (v < get_max_verse rows (book_0 b) c) then
          (PStr (book_1 b), c, v + 1)
        else if decide (c < get_max_chapter rows (book_0 b)) then
          (PStr (book_1 b), c + 1, 1)
        else match next_book idx with
             | Some nb => (PStr (book_1 nb), 1, 1)
             | None => (PStr (book_1 b), c, v)
             end).
Proof.
  nav_start Hres.
  destruct (Z.ltb_spec v (get_max_verse rows (book_0 b) c));
    destruct (decide (v < get_max_verse rows (book_0 b) c)); try lia; [done |].
  destruct (Z.ltb_spec c (get_max_chapter rows (book_0 b)));
    destruct (decide (c < get_max_chapter rows (book_0 b))); try lia; [done |].
  destruct (next_book_cases idx) as [(-> & nb & -> & ->) | (-> & ->)]; done.
Qed.

Lemma nav_previous_verse :
  navigate_verse rows cb c v "previous_verse" =
    Ok (if decide (1 < v) then (PStr (book_1 b), c, v - 1)
        else if decide (1 < c) then
          (PStr (book_1 b), c - 1, get_max_verse rows (book_0 b) (c - 1))
        else match prev_book idx with
             | Some pb =>
                 (PStr (book_1 pb), get_max_chapter rows (book_0 pb),
                  get_max_verse rows (book_0 pb) (get_max_chapter rows (book_0 pb)))
             | None => (PStr (book_1 b), c, v)
             end).
Proof.
  nav_start Hres. rewrite !Z.gtb_ltb.
  destruct (Z.ltb_spec 1 v); destruct (decide (1 < v)); try lia; [done |].
  destruct (Z.ltb_spec 1 c); destruct (decide (1 < c)); try lia; [done |].
  destruct (prev_book_cases idx) as [(Hi & pb & -> & ->) | (Hi & _ & ->)];
    [by apply lookup_lt_Some in Hb | |];
    rewrite Z.gtb_ltb in Hi; rewrite Hi; done.
Qed.

Lemma nav_start_of_chapter :
  navigate_verse rows cb c v "start_of_chapter" =
    Ok (if decide (v = 1) then
          if decide (1 < c) then (PStr (book_1 b), c - 1, 1)
          else match prev_book idx with
               | Some pb => (PStr (book_1 pb), get_max_chapter rows (book_0 pb), 1)
               | None => (PStr (book_1 b), c, v)
               end
        else (PStr (book_1 b), c, 1)).
Proof.
  nav_start Hres. rewrite !Z.gtb_ltb.
  destruct (Z.eqb_spec v 1); destruct (decide (v = 1)); try lia; [| done].
  destruct (Z.ltb_spec 1 c); destruct (decide (1 < c)); try lia; [done |].
  destruct (prev_book_cases idx) as [(Hi & pb & -> & ->) | (Hi & _ & ->)];
    [by apply lookup_lt_Some in Hb | |];
    rewrite Z.gtb_ltb in Hi; rewrite Hi; done.
Qed.

Lemma nav_start_of_next_chapter :
  navigate_verse rows cb c v "start_of_next_chapter" =
    Ok (if decide (c < get_max_chapter rows (book_0 b)) then
          (PStr (book_1 b), c + 1, 1)
        else match next_book idx with
             | Some nb => (PStr (book_1 nb), 1, 1)
             | None => (PStr (book_1 b), c, v)
             end).
Proof.
  nav_start Hres.
  destruct (Z.ltb_spec c (get_max_chapter rows (book_0 b)));
    destruct (decide (c < get_max_chapter rows (book_0 b))); try lia; [done |].
  destruct (next_book_cases idx) as [(-> & nb & -> & ->) | (-> & ->)]; done.
Qed.

Lemma nav_unknown_mode mode :
  mode <> "next_verse" -> mode <> "previous_verse" ->
  mode <> "start_of_chapter" -> mode <> "start_of_next_chapter" ->
  navigate_verse rows cb c v mode =
    Raise (ValueError "Unknown navigation mode" (PStr mode)).
Proof.
  intros H1 H2 H3 H4. unfold navigate_verse.
  rewrite (locate_book_resolves _ _ _ Hres). cbn [mbind result_bind].
  apply String.eqb_neq in H1, H2, H3, H4. by rewrite H1, H2, H3, H4.
Qed.

End Directives.

(** ** Consequences for every call *)

Lemma resolves_full_name idx b :
  NEW_TESTAMENT !! idx = Some b -> resolves (PStr (book_1 b)) idx b.
Proof.
  intros Hb. split; [done |].
  by destruct (registry_entries _ _ Hb) as (_ & _ & _ & Hn & _).
Qed.

(** [navigate_verse] looks at [current_book] only through [locate_book]. *)
Lemma navigate_verse_locate rows cb cb' c v mode :
  locate_book cb = locate_book cb' ->
  navigate_verse rows cb c v mode = navigate_verse rows cb' c v mode.
Proof. intros H. unfold navigate_verse. by rewrite H. Qed.

Lemma navigate_verse_spelling rows cb idx b c v mode :
  resolves cb idx b ->
  navigate_verse rows cb c v mode = navigate_verse rows (PStr (book_1 b)) c v mode.
Proof.
  intros Hres. apply navigate_verse_locate.
  rewrite (locate_book_resolves _ _ _ Hres).
  symmetry. apply locate_book_resolves, resolves_full_name, Hres.
Qed.

Lemma navigate_verse_Ok_resolves rows cb c v mode A' :
  navigate_verse rows cb c v mode = Ok A' -> exists idx b, resolves cb idx b.
Proof.
  unfold navigate_verse.
  destruct (locate_book cb) as [[n idx]|e] eqn:Hl; [| done].
  intros _. apply locate_book_Ok in Hl as (b & Hres & _). eauto.
Qed.

Lemma prev_book_lookup idx pb :
  prev_book idx = Some pb -> exists i, idx = S i /\ NEW_TESTAMENT !! i = Some pb.
Proof. destruct idx as [|i]; [done |]. cbn. eauto. Qed.

(** The book of every result is the full name of a registry entry. *)
Lemma navigate_verse_result_book rows cb c v mode bk c' v' :
  navigate_verse rows cb c v mode = Ok (bk, c', v') ->
  exists idx' b', NEW_TESTAMENT !! idx' = Some b' /\ bk = PStr (book_1 b').
Proof.
  intros Hnav.
  destruct (navigate_verse_Ok_resolves _ _ _ _ _ _ Hnav) as (idx & b & Hres).
  pose proof (proj1 Hres) as Hb. revert Hnav.
  destruct (decide (mode = "next_verse")) as [-> | N1].
  { rewrite (nav_next_verse rows _ _ _ Hres).
    repeat case_decide; try (intros [= <- <- <-]; eauto).
    unfold next_book. destruct (NEW_TESTAMENT !! S idx) eqn:E;
      intros [= <- <- <-]; eauto. }
  destruct (decide (mode = "previous_verse")) as [-> | N2].
  { rewrite (nav_previous_verse rows _ _ _ Hres).
    repeat case_decide; try (intros [= <- <- <-]; eauto).
    destruct (prev_book idx) as [pb|] eqn:E; intros [= <- <- <-]; [| eauto].
    apply prev_book_lookup in E as (i & _ & Hpb). eauto. }
  destruct (decide (mode = "start_of_chapter")) as [-> | N3].
  { rewrite (nav_start_of_chapter rows _ _ _ Hres).
    repeat case_decide; try (intros [= <- <- <-]; eauto).
    destruct (prev_book idx) as [pb|] eqn:E; intros [= <- <- <-]; [| eauto].
    apply prev_book_lookup in E as (i & _ & Hpb). eauto. }
  destruct (decide (mode = "start_of_next_chapter")) as [-> | N4].
  { rewrite (nav_start_of_next_chapter rows _ _ _ Hres).
    repeat case_decide; try (intros [= <- <- <-]; eauto).
    unfold next_book. destruct (NEW_TESTAMENT !! S idx) eqn:E;
      intros [= <- <- <-]; eauto. }
  by rewrite (nav_unknown_mode rows _ _ _ Hres).
Qed.

Lemma head_registry b : head NEW_TESTAMENT = Some b -> NEW_TESTAMENT !! 0%nat = Some b.
Proof. done. Qed.

Lemma last_registry b : last NEW_TESTAMENT = Some b <-> NEW_TESTAMENT !! 26%nat = Some b.
Proof. by rewrite last_lookup. Qed.

Lemma next_book_None idx b :
  NEW_TESTAMENT !! idx = Some b -> next_book idx = None -> last NEW_TESTAMENT = Some b.
Proof.
  intros Hb Hn. apply last_registry.
  apply lookup_lt_Some in Hb as Hlt. apply lookup_ge_None in Hn.
  rewrite registry_length in Hlt, Hn. by replace 26%nat with idx by lia.
Qed.

(** ** Claims about navigation *)

(** C1: for an address whose book resolves, NEXT_VERSE increments the verse
    while it is below the chapter's maximum; otherwise it moves to verse 1 of
    the next chapter while the chapter is below the book's maximum; otherwise
    to chapter 1, verse 1 of the next book in canonical order; otherwise, at
    the last book, it returns the address unchanged. *)
Theorem next_verse_spec rows cb idx b c v :
  resolves cb idx b ->
  navigate_verse rows cb c v "next_verse" =
    Ok (if decide (v < get_max_verse rows (book_0 b) c) then
          (PStr (book_1 b), c, v + 1)
        else if decide (c < get_max_chapter rows (book_0 b)) then
          (PStr (book_1 b), c + 1, 1)
        else match next_book idx with
             | Some nb => (PStr (book_1 nb), 1, 1)
             | None => (PStr (book_1 b), c, v)
             end).
Proof. intros Hres. by apply nav_next_verse. Qed.

Lemma next_verse_spec_witness :
  resolves (PStr "Matthew") 0 (Book 1 "Matthew" "Mt" "The Gospel According to Matthew" "Matt") /\
  navigate_verse sample_rows (PStr "Matthew") 1 2 "next_verse" = Ok (PStr "Matthew", 2, 1).
Proof.
  assert (H : resolves (PStr "Matthew") 0
                (Book 1 "Matthew" "Mt" "The Gospel According to Matthew" "Matt"))
    by (split; reflexivity).
  split; [exact H |].
  exact (next_verse_spec sample_rows _ _ _ 1 2 H).
Defined.

(** The scenario of the specification: from the last verse of Matthew 1,
    in a store in which Matthew has a second chapter. *)
Lemma next_verse_end_of_matthew_1 rows :
  1 < get_max_chapter rows 1 ->
  navigate_verse rows (PStr "Matthew") 1 (get_max_verse rows 1 1) "next_verse" =
    Ok (PStr "Matthew", 2, 1).
Proof.
  intros Hmc.
  assert (H : resolves (PStr "Matthew") 0
                (Book 1 "Matthew" "Mt" "The Gospel According to Matthew" "Matt"))
    by (split; reflexivity).
  rewrite (nav_next_verse rows _ _ _ H). cbn [book_0 book_1].
  case_decide; [lia |]. by case_decide.
Qed.

(** C4: for an address whose book resolves, START_OF_CHAPTER returns verse 1
    of the same chapter when the verse is not 1; at verse 1 it rewinds to
    verse 1 of the previous chapter, or of the last chapter of the previous
    book, or returns the address unchanged when there is no previous book.
    From John 3:1 it returns John 2:1. *)
Theorem start_of_chapter_spec rows cb idx b c v :
  (resolves cb idx b ->
   navigate_verse rows cb c v "start_of_chapter" =
     Ok (if decide (v = 1) then
           if decide (1 < c) then (PStr (book_1 b), c - 1, 1)
           else match prev_book idx with
                | Some pb => (PStr (book_1 pb), get_max_chapter rows (book_0 pb), 1)
                | None => (PStr (book_1 b), c, v)
                end
         else (PStr (book_1 b), c, 1))) /\
  navigate_verse rows (PStr "John") 3 1 "start_of_chapter" = Ok (PStr "John", 2, 1).
Proof.
  split; [intros Hres; by apply nav_start_of_chapter |].
  assert (H : resolves (PStr "John") 3
                (Book 4 "John" "Jn" "The Gospel According to John" "John"))
    by (split; reflexivity).
  by rewrite (nav_start_of_chapter rows _ _ _ H).
Qed.

Lemma start_of_chapter_spec_witness :
  resolves (PStr "Mk") 1 (Book 2 "Mark" "Mk" "The Gospel According to Mark" "Mark") /\
  navigate_verse sample_rows (PStr "Mk") 1 1 "start_of_chapter" = Ok (PStr "Matthew", 2, 1).
Proof.
  assert (H : resolves (PStr "Mk") 1
                (Book 2 "Mark" "Mk" "The Gospel According to Mark" "Mark"))
    by (split; reflexivity).
  split; [exact H |].
  exact (proj1 (start_of_chapter_spec sample_rows _ _ _ 1 1) H).
Defined.

(** C5: PREVIOUS_VERSE at the first verse of the first book and NEXT_VERSE at
    the last verse of the last book return the address unchanged, and the
    book of every navigation result has a position between 1 and 27. *)
Theorem navigation_stays_in_registry rows :
  (forall A, is_first_verse A -> navigate rows A "previous_verse" = Ok A) /\
  (forall A, is_last_verse rows A -> navigate rows A "next_verse" = Ok A) /\
  (forall A mode bk c' v',
     navigate rows A mode = Ok (bk, c', v') ->
     exists idx' b', resolves bk idx' b' /\ 1 <= book_0 b' <= 27).
Proof.
  split; [| split].
  - intros A (b & Hb & ->). apply head_registry in Hb.
    cbn [navigate].
    rewrite (nav_previous_verse rows _ _ _ (resolves_full_name _ _ Hb)).
    by repeat case_decide.
  - intros A (b & Hb & ->). apply (proj1 (last_registry b)) in Hb.
    cbn [navigate].
    rewrite (nav_next_verse rows _ _ _ (resolves_full_name _ _ Hb)).
    repeat case_decide; try lia. done.
  - intros [[cb c] v] mode bk c' v' Hnav. cbn [navigate] in Hnav.
    apply navigate_verse_result_book in Hnav as (idx' & b' & Hb' & ->).
    exists idx', b'. split; [by apply resolves_full_name |].
    by apply registry_position in Hb'.
Qed.

Lemma navigation_stays_in_registry_witness :
  navigate sample_rows (PStr "Matthew", 1, 1) "previous_verse" = Ok (PStr "Matthew", 1, 1) /\
  navigate sample_rows (PStr "Revelation", 2, 3) "next_verse" = Ok (PStr "Revelation", 2, 3) /\
  exists idx' b', resolves (PStr "Mark") idx' b' /\ 1 <= book_0 b' <= 27.
Proof.
  destruct (navigation_stays_in_registry sample_rows) as (H1 & H2 & H3).
  split; [| split].
  - apply H1. eexists. split; reflexivity.
  - apply H2. eexists. split; reflexivity.
  - apply (H3 (PStr "Mt", 2, 3) "next_verse" (PStr "Mark") 1 1). reflexivity.
Defined.

(** C6: the documented integer form of [current_book] is refused.  For every
    integer the call raises, and for position 1 it raises the
    book-not-found error although the book is in the registry, where the
    full name of the same book is accepted. *)
Theorem integer_book_is_refused rows :
  (forall n c v mode,
     navigate_verse rows (PInt n) c v mode =
       Raise (ValueError (match get_book_data (PInt n) with
                          | Some _ => "Book not found in NEW_TESTAMENT"
                          | None => "Unknown book"
                          end) (PInt n))) /\
  get_book_data (PInt 1) = Some (PStr "Matthew", PStr "Mt", PStr "Matt") /\
  navigate_verse rows (PInt 1) 1 1 "next_verse" =
    Raise (ValueError "Book not found in NEW_TESTAMENT" (PInt 1)) /\
  exists A', navigate_verse rows (PStr "Matthew") 1 1 "next_verse" = Ok A'.
Proof.
  assert (G : forall n c v mode,
     navigate_verse rows (PInt n) c v mode =
       Raise (ValueError (match get_book_data (PInt n) with
                          | Some _ => "Book not found in NEW_TESTAMENT"
                          | None => "Unknown book"
                          end) (PInt n))).
  { intros n c v mode. unfold navigate_verse. by rewrite locate_book_int. }
  split; [exact G |]. split; [reflexivity |]. split; [by rewrite G |].
  assert (H : resolves (PStr "Matthew") 0
                (Book 1 "Matthew" "Mt" "The Gospel According to Matthew" "Matt"))
    by (split; reflexivity).
  rewrite (nav_next_verse rows _ _ _ H). eauto.
Qed.

Lemma next_book_lookup idx nb : next_book idx = Some nb -> NEW_TESTAMENT !! S idx = Some nb.
Proof. done. Qed.

Lemma full_name_offset idx idx' b b' :
  NEW_TESTAMENT !! idx = Some b -> NEW_TESTAMENT !! idx' = Some b' ->
  book_1 b = book_1 b' -> idx = idx'.
Proof.
  intros Hb Hb' E.
  destruct (registry_entries _ _ Hb) as (P & _ & _ & R & _).
  destruct (registry_entries _ _ Hb') as (P' & _ & _ & R' & _).
  rewrite E, R' in R. injection R as R. lia.
Qed.

(** C7, as the code has it: at a stored address whose book resolves and
    whose extents are empty, no directive fails.  NEXT_VERSE and
    START_OF_NEXT_CHAPTER move to chapter 1, verse 1 of the next book, and
    return the address unchanged exactly when the book is the last of the
    registry.  PREVIOUS_VERSE and START_OF_CHAPTER move by their ordinary
    rules, and return the address unchanged exactly at chapter 1, verse 1 of
    the first book. *)
Theorem empty_extent_navigation rows idx b c v :
  NEW_TESTAMENT !! idx = Some b ->
  1 <= c -> 1 <= v ->
  get_max_chapter rows (book_0 b) = 0 ->
  get_max_verse rows (book_0 b) c = 0 ->
  let A := (PStr (book_1 b), c, v) in
  let onward := match next_book idx with
                | Some nb => (PStr (book_1 nb), 1, 1)
                | None => A
                end in
  navigate rows A "next_verse" = Ok onward /\
  navigate rows A "start_of_next_chapter" = Ok onward /\
  (onward = A <-> next_book idx = None) /\
  navigate rows A "previous_verse" =
    Ok (if decide (1 < v) then (PStr (book_1 b), c, v - 1)
        else if decide (1 < c) then
          (PStr (book_1 b), c - 1, get_max_verse rows (book_0 b) (c - 1))
        else match prev_book idx with
             | Some pb =>
                 (PStr (book_1 pb), get_max_chapter rows (book_0 pb),
                  get_max_verse rows (book_0 pb) (get_max_chapter rows (book_0 pb)))
             | None => A
             end) /\
  navigate rows A "start_of_chapter" =
    Ok (if decide (v = 1) then
          if decide (1 < c) then (PStr (book_1 b), c - 1, 1)
          else match prev_book idx with
               | Some pb => (PStr (book_1 pb), get_max_chapter rows (book_0 pb), 1)
               | None => A
               end
        else (PStr (book_1 b), c, 1)) /\
  (navigate rows A "previous_verse" = Ok A <->
   prev_book idx = None /\ c = 1 /\ v = 1) /\
  (navigate rows A "start_of_chapter" = Ok A <->
   prev_book idx = None /\ c = 1 /\ v = 1).
Proof.
  intros Hb Hc Hv Hmc Hmv A onward. subst A onward. cbn [navigate].
  pose proof (resolves_full_name _ _ Hb) as Hres.
  rewrite (nav_next_verse rows _ _ _ Hres), (nav_start_of_next_chapter rows _ _ _ Hres),
    (nav_previous_verse rows _ _ _ Hres), (nav_start_of_chapter rows _ _ _ Hres).
  rewrite Hmc, Hmv.
  assert (Hprev : forall pb, prev_book idx = Some pb -> book_1 pb <> book_1 b).
  { intros pb Hp E.
    apply prev_book_lookup in Hp as (i & -> & Hpb).
    pose proof (full_name_offset _ _ _ _ Hpb Hb E). lia. }
  split; [repeat case_decide; try lia; done |].
  split; [repeat case_decide; try lia; done |].
  split.
  { destruct (next_book idx) as [nb|] eqn:Hn; [| done].
    split; [| done]. intros [= E _ _].
    pose proof (full_name_offset _ _ _ _ (next_book_lookup _ _ Hn) Hb E). lia. }
  split; [done |]. split; [done |]. split.
  - destruct (decide (1 < v)); [split; [intros [= ?]; lia | intros (_ & _ & ->); lia] |].
    destruct (decide (1 < c)); [split; [intros [= ? ?]; lia | intros (_ & -> & _); lia] |].
    destruct (prev_book idx) as [pb|] eqn:Hp.
    + split; [intros [= E _ _]; by destruct (Hprev pb eq_refl E) | by intros (? & _)].
    + split; [intros _; split; [done | lia] | done].
  - destruct (decide (v = 1)) as [-> |];
      [| split; [intros [= ?]; lia | intros (_ & _ & ->); lia]].
    destruct (decide (1 < c)); [split; [intros [= ?]; lia | intros (_ & -> & _); lia] |].
    destruct (prev_book idx) as [pb|] eqn:Hp.
    + split; [intros [= E _]; by destruct (Hprev pb eq_refl E) | by intros (? & _)].
    + split; [intros _; split; [done | lia] | done].
Qed.

Lemma empty_extent_navigation_witness :
  navigate gap_rows (PStr "Matthew", 1, 1) "next_verse" = Ok (PStr "Mark", 1, 1) /\
  navigate gap_rows (PStr "Matthew", 1, 1) "previous_verse" = Ok (PStr "Matthew", 1, 1).
Proof.
  assert (H := empty_extent_navigation gap_rows 0
                 (Book 1 "Matthew" "Mt" "The Gospel According to Matthew" "Matt") 1 1
                 eq_refl ltac:(lia) ltac:(lia) eq_refl eq_refl).
  destruct H as (H1 & _ & _ & _ & _ & H6 & _).
  split; [exact H1 |]. apply H6. by repeat split.
Defined.

(** C7, as the specification states it, fails: Matthew has no rows in
    [gap_rows], both of its extents are 0, and NEXT_VERSE moves the stored
    address Matthew 1:1 to Mark 1:1, PREVIOUS_VERSE moves Matthew 1:5 to
    Matthew 1:4. *)
Lemma empty_extent_is_not_a_no_op :
  get_max_chapter gap_rows 1 = 0 /\ get_max_verse gap_rows 1 1 = 0 /\
  navigate gap_rows (PStr "Matthew", 1, 1) "next_verse" = Ok (PStr "Mark", 1, 1) /\
  navigate gap_rows (PStr "Matthew", 1, 1) "next_verse" <> Ok (PStr "Matthew", 1, 1) /\
  navigate gap_rows (PStr "Matthew", 1, 5) "previous_verse" = Ok (PStr "Matthew", 1, 4) /\
  navigate gap_rows (PStr "Matthew", 1, 5) "previous_verse" <> Ok (PStr "Matthew", 1, 5).
Proof. repeat split; try reflexivity; vm_compute; discriminate. Qed.

(** C9: a successful call returns as book the full name of a registry entry;
    the result does not depend on the spelling of [current_book]; and the
    branches that leave chapter and verse as they are return the full name of
    the resolved book, not the caller's spelling. *)
Theorem result_book_is_full_name rows cb c v mode :
  (forall idx b,
     NEW_TESTAMENT !! idx = Some b ->
     resolves (PStr (book_1 b)) idx b /\ resolves (PStr (book_2 b)) idx b /\
     resolves (PStr (book_4 b)) idx b) /\
  (forall bk c' v',
     navigate_verse rows cb c v mode = Ok (bk, c', v') ->
     exists b', b' ∈ NEW_TESTAMENT /\ bk = PStr (book_1 b')) /\
  (forall idx b,
     resolves cb idx b ->
     navigate_verse rows cb c v mode = navigate_verse rows (PStr (book_1 b)) c v mode /\
     (next_book idx = None ->
      get_max_verse rows (book_0 b) c <= v -> get_max_chapter rows (book_0 b) <= c ->
      navigate_verse rows cb c v "next_verse" = Ok (PStr (book_1 b), c, v) /\
      navigate_verse rows cb c v "start_of_next_chapter" = Ok (PStr (book_1 b), c, v)) /\
     (prev_book idx = None ->
      navigate_verse rows cb 1 1 "previous_verse" = Ok (PStr (book_1 b), 1, 1) /\
      navigate_verse rows cb 1 1 "start_of_chapter" = Ok (PStr (book_1 b), 1, 1))).
Proof.
  split; [| split].
  - intros idx b Hb.
    destruct (registry_entries _ _ Hb) as (_ & _ & _ & H1 & H2 & H4).
    by repeat split.
  - intros bk c' v' Hnav.
    apply navigate_verse_result_book in Hnav as (idx' & b' & Hb' & ->).
    exists b'. split; [| done]. apply list_elem_of_lookup. by exists idx'.
  - intros idx b Hres. split; [by apply (navigate_verse_spelling rows cb idx) |]. split.
    + intros Hn Hv Hc.
      rewrite (nav_next_verse rows _ _ _ Hres), (nav_start_of_next_chapter rows _ _ _ Hres).
      rewrite Hn. by repeat case_decide; try lia.
    + intros Hp.
      rewrite (nav_previous_verse rows _ _ _ Hres), (nav_start_of_chapter rows _ _ _ Hres).
      rewrite Hp. by repeat case_decide; try lia.
Qed.

Lemma result_book_is_full_name_witness :
  (exists b', b' ∈ NEW_TESTAMENT /\ PStr "Revelation" = PStr (book_1 b')) /\
  navigate_verse sample_rows (PStr "Rev") 2 3 "next_verse" = Ok (PStr "Revelation", 2, 3) /\
  navigate_verse sample_rows (PStr "Matt") 1 1 "previous_verse" = Ok (PStr "Matthew", 1, 1).
Proof.
  split; [| split].
  - apply (proj1 (proj2 (result_book_is_full_name sample_rows (PStr "Rev") 2 3 "next_verse"))
             (PStr "Revelation") 2 3).
    reflexivity.
  - refine (proj1 (proj1 (proj2 (proj2 (proj2 (result_book_is_full_name sample_rows
             (PStr "Rev") 2 3 "next_verse")) 26%nat
             (Book 27 "Revelation" "Rev" "The Revelation to John" "Rev") _)) _ _ _)).
    + split; reflexivity.
    + reflexivity.
    + vm_compute; discriminate.
    + vm_compute; discriminate.
  - refine (proj1 (proj2 (proj2 (proj2 (proj2 (result_book_is_full_name sample_rows
             (PStr "Matt") 1 1 "previous_verse")) 0%nat
             (Book 1 "Matthew" "Mt" "The Gospel According to Matthew" "Matt") _)) _)).
    + split; reflexivity.
    + reflexivity.
Defined.

(** ** Round trips *)

Lemma next_then_previous rows idx b c v :
  NEW_TESTAMENT !! idx = Some b ->
  1 <= c <= get_max_chapter rows (book_0 b) ->
  1 <= v <= get_max_verse rows (book_0 b) c ->
  (navigate rows (PStr (book_1 b), c, v) "next_verse"
     ≫= fun A' => navigate rows A' "previous_verse")
  = Ok (PStr (book_1 b), c, v)
  \/ next_book idx = None /\ c = get_max_chapter rows (book_0 b)
     /\ v = get_max_verse rows (book_0 b) c.
Proof.
  intros Hb Hc Hv. pose proof (resolves_full_name _ _ Hb) as Hres.
  cbn [navigate]. rewrite (nav_next_verse rows _ _ _ Hres).
  destruct (decide (v < get_max_verse rows (book_0 b) c)) as [Hlt | Hge].
  { left. cbn [mbind result_bind navigate].
    rewrite (nav_previous_verse rows _ _ _ Hres).
    case_decide; [| lia]. by rewrite Z.add_simpl_r. }
  assert (v = get_max_verse rows (book_0 b) c) as Ev by lia.
  destruct (decide (c < get_max_chapter rows (book_0 b))) as [Hlt | Hgc].
  { left. cbn [mbind result_bind navigate].
    rewrite (nav_previous_verse rows _ _ _ Hres).
    case_decide; [lia |]. case_decide; [| lia].
    by rewrite Z.add_simpl_r, <- Ev. }
  assert (c = get_max_chapter rows (book_0 b)) as Ec by lia.
  destruct (next_book idx) as [nb|] eqn:Hn; [left | by right].
  cbn [mbind result_bind navigate].
  rewrite (nav_previous_verse rows _ _ _ (resolves_full_name _ _ Hn)).
  repeat case_decide; try lia.
  cbn [prev_book]. rewrite Hb. by rewrite <- Ec, <- Ev.
Qed.

Lemma previous_then_next rows idx b c v :
  NEW_TESTAMENT !! idx = Some b ->
  1 <= c <= get_max_chapter rows (book_0 b) ->
  1 <= v <= get_max_verse rows (book_0 b) c ->
  (navigate rows (PStr (book_1 b), c, v) "previous_verse"
     ≫= fun A' => navigate rows A' "next_verse")
  = Ok (PStr (book_1 b), c, v)
  \/ prev_book idx = None /\ c = 1 /\ v = 1.
Proof.
  intros Hb Hc Hv. pose proof (resolves_full_name _ _ Hb) as Hres.
  cbn [navigate]. rewrite (nav_previous_verse rows _ _ _ Hres).
  destruct (decide (1 < v)) as [Hlt | Hge].
  { left. cbn [mbind result_bind navigate].
    rewrite (nav_next_verse rows _ _ _ Hres).
    case_decide; [| lia]. by rewrite Z.sub_simpl_r. }
  assert (v = 1) as -> by lia.
  destruct (decide (1 < c)) as [Hlt | Hgc].
  { left. cbn [mbind result_bind navigate].
    rewrite (nav_next_verse rows _ _ _ Hres).
    case_decide; [lia |]. case_decide; [| lia].
    by rewrite Z.sub_simpl_r. }
  assert (c = 1) as -> by lia.
  destruct (prev_book idx) as [pb|] eqn:Hp; [left | by right].
  apply prev_book_lookup in Hp as (i & -> & Hpb).
  cbn [mbind result_bind navigate].
  rewrite (nav_next_verse rows _ _ _ (resolves_full_name _ _ Hpb)).
  case_decide; [lia |]. case_decide; [lia |].
  unfold next_book. by rewrite Hb.
Qed.

(** C2, as the code has it: for every valid address that is not the very
    last verse of the collection, NEXT_VERSE followed by PREVIOUS_VERSE
    returns the address. *)
Theorem next_previous_round_trip rows A :
  valid_address rows A ->
  ~ is_last_verse rows A ->
  (navigate rows A "next_verse" ≫= fun A' => navigate rows A' "previous_verse") = Ok A.
Proof.
  destruct A as [[bk c] v]. intros (b & Hin & -> & Hc & Hv) Hnl.
  apply list_elem_of_lookup in Hin as [idx Hb].
  destruct (next_then_previous rows idx b c v Hb Hc Hv) as [H | (Hn & -> & ->)];
    [done |].
  destruct Hnl. exists b. split; [| done]. by apply (next_book_None idx).
Qed.

Lemma next_previous_round_trip_witness :
  (navigate sample_rows (PStr "Matthew", 1, 2) "next_verse"
     ≫= fun A' => navigate sample_rows A' "previous_verse") = Ok (PStr "Matthew", 1, 2).
Proof.
  apply next_previous_round_trip.
  - exists (Book 1 "Matthew" "Mt" "The Gospel According to Matthew" "Matt").
    split; [apply list_elem_of_here |]. split; [reflexivity |].
    split; vm_compute; split; discriminate.
  - intros (b & Hb & HA). injection Hb as <-. discriminate HA.
Defined.

(** C2, as the specification states it, fails: the last verse of Revelation
    is valid and is not the first verse of the collection, NEXT_VERSE leaves
    it where it is and PREVIOUS_VERSE then steps back one verse. *)
Lemma next_previous_fails_at_last_verse :
  valid_address sample_rows (PStr "Revelation", 2, 3) /\
  ~ is_first_verse (PStr "Revelation", 2, 3) /\
  (navigate sample_rows (PStr "Revelation", 2, 3) "next_verse"
     ≫= fun A' => navigate sample_rows A' "previous_verse") = Ok (PStr "Revelation", 2, 2) /\
  (navigate sample_rows (PStr "Revelation", 2, 3) "next_verse"
     ≫= fun A' => navigate sample_rows A' "previous_verse") <> Ok (PStr "Revelation", 2, 3).
Proof.
  split; [| split; [| split]].
  - exists (Book 27 "Revelation" "Rev" "The Revelation to John" "Rev").
    split; [apply list_elem_of_lookup; by exists 26%nat |]. split; [reflexivity |].
    split; vm_compute; split; discriminate.
  - intros (b & Hb & HA). injection Hb as <-. discriminate HA.
  - reflexivity.
  - vm_compute. discriminate.
Qed.

(** C3, as the code has it: for every valid address that is not the very
    first verse of the collection, PREVIOUS_VERSE followed by NEXT_VERSE
    returns the address. *)
Theorem previous_next_round_trip rows A :
  valid_address rows A ->
  ~ is_first_verse A ->
  (navigate rows A "previous_verse" ≫= fun A' => navigate rows A' "next_verse") = Ok A.
Proof.
  destruct A as [[bk c] v]. intros (b & Hin & -> & Hc & Hv) Hnf.
  apply list_elem_of_lookup in Hin as [idx Hb].
  destruct (previous_then_next rows idx b c v Hb Hc Hv) as [H | (Hp & -> & ->)];
    [done |].
  destruct Hnf. exists b. split; [| done].
  destruct idx as [|i]; [by rewrite <- Hb | ].
  cbn in Hp. apply lookup_lt_Some in Hb. apply lookup_ge_None in Hp. lia.
Qed.

Lemma previous_next_round_trip_witness :
  (navigate sample_rows (PStr "Mark", 1, 1) "previous_verse"
     ≫= fun A' => navigate sample_rows A' "next_verse") = Ok (PStr "Mark", 1, 1).
Proof.
  apply previous_next_round_trip.
  - exists (Book 2 "Mark" "Mk" "The Gospel According to Mark" "Mark").
    split; [apply list_elem_of_lookup; by exists 1%nat |]. split; [reflexivity |].
    split; vm_compute; split; discriminate.
  - intros (b & Hb & HA). injection Hb as <-. discriminate HA.
Defined.

(** C3, as the specification states it, fails: Matthew 1:1 is valid and is
    not the last verse of the collection, PREVIOUS_VERSE leaves it where it
    is and NEXT_VERSE then steps forward one verse. *)
Lemma previous_next_fails_at_first_verse :
  valid_address sample_rows (PStr "Matthew", 1, 1) /\
  ~ is_last_verse sample_rows (PStr "Matthew", 1, 1) /\
  (navigate sample_rows (PStr "Matthew", 1, 1) "previous_verse"
     ≫= fun A' => navigate sample_rows A' "next_verse") = Ok (PStr "Matthew", 1, 2) /\
  (navigate sample_rows (PStr "Matthew", 1, 1) "previous_verse"
     ≫= fun A' => navigate sample_rows A' "next_verse") <> Ok (PStr "Matthew", 1, 1).
Proof.
  split; [| split; [| split]].
  - exists (Book 1 "Matthew" "Mt" "The Gospel According to Matthew" "Matt").
    split; [apply list_elem_of_here |]. split; [reflexivity |].
    split; vm_compute; split; discriminate.
  - intros (b & Hb & HA). injection Hb as <-. discriminate HA.
  - reflexivity.
  - vm_compute. discriminate.
Qed.

(** ** The extent scans *)

Section Scan.

(** Both scans are a running maximum over the rows that pass a test. *)
Variable keep : row -> bool.
Variable val : row -> Z.

#[local] Abbreviation step := (scan_step keep val).

Lemma step_max m r : step m r = if keep r then Z.max m (val r) else m.
Proof.
  unfold scan_step. destruct (keep r); cbn [andb]; [| done].
  rewrite Z.gtb_ltb. destruct (Z.ltb_spec m (val r)); lia.
Qed.

Lemma scan_lower l m0 : m0 <= foldl step m0 l.
Proof.
  revert m0. induction l as [|r l IH]; intros m0; cbn [foldl]; [lia |].
  etrans; [| apply IH]. rewrite step_max. destruct (keep r); lia.
Qed.

Lemma scan_upper l m0 r : r ∈ l -> keep r = true -> val r <= foldl step m0 l.
Proof.
  revert m0. induction l as [|a l IH]; intros m0 Hin Hk; [by apply elem_of_nil in Hin |].
  cbn [foldl]. apply elem_of_cons in Hin as [-> | Hin]; [| by apply IH].
  etrans; [| apply scan_lower]. rewrite step_max, Hk. lia.
Qed.

Lemma scan_attained l m0 :
  foldl step m0 l = m0 \/
  exists r, r ∈ l /\ keep r = true /\ val r = foldl step m0 l.
Proof.
  revert m0. induction l as [|a l IH]; intros m0; cbn [foldl]; [by left |].
  destruct (IH (step m0 a)) as [E | (r & Hin & Hk & Hv)].
  - rewrite E, step_max. destruct (keep a) eqn:Hk; [| by left].
    destruct (Z.max_spec m0 (val a)) as [[_ ->] | [_ ->]]; [| by left].
    right. exists a. split; [left | done].
  - right. exists r. split; [by right | done].
Qed.

Lemma scan_none l m0 :
  (forall r, r ∈ l -> keep r = false) -> foldl step m0 l = m0.
Proof.
  intros Hno. destruct (scan_attained l m0) as [E | (r & Hin & Hk & _)]; [done |].
  rewrite (Hno r Hin) in Hk. discriminate.
Qed.

Lemma scan_largest l r0 :
  (forall r, r ∈ l -> keep r = true -> 0 <= val r) ->
  r0 ∈ l -> keep r0 = true ->
  exists r, r ∈ l /\ keep r = true /\ val r = foldl step 0 l.
Proof.
  intros Hpos Hin Hk.
  destruct (scan_attained l 0) as [E | H]; [| done].
  exists r0. split; [done |]. split; [done |].
  pose proof (scan_upper l 0 r0 Hin Hk). pose proof (Hpos r0 Hin Hk). lia.
Qed.

Lemma scan_permutation l l' m0 : l ≡ₚ l' -> foldl step m0 l = foldl step m0 l'.
Proof.
  intros Hp. revert m0.
  induction Hp as [| x l l' _ IH | x y l | l l' l'' _ IH1 _ IH2]; intros m0; cbn [foldl].
  - done.
  - apply IH.
  - f_equal. rewrite !step_max. destruct (keep x), (keep y); lia.
  - by rewrite IH1, IH2.
Qed.

End Scan.

Lemma get_max_chapter_scan rows n :
  get_max_chapter rows n =
    foldl (scan_step (fun _ => true) bcv_chapter) 0 (rows n).
Proof. reflexivity. Qed.

Lemma get_max_verse_scan rows n c :
  get_max_verse rows n c =
    foldl (scan_step (fun r => bcv_chapter r =? c) bcv_verse) 0 (rows n).
Proof. reflexivity. Qed.

(** C8: [get_max_chapter] is 0 for a book without rows, bounds every chapter
    number of the book's rows and, chapter numbers being natural numbers, is
    the chapter number of one of them; [get_max_verse] is 0 for a chapter
    without rows, bounds every verse number of the chapter's rows and, verse
    numbers being natural numbers, is the verse number of one of them; and
    neither changes when the provider yields the same rows in another
    order. *)
Theorem extent_scans rows n c :
  (rows n = [] -> get_max_chapter rows n = 0) /\
  (forall r, r ∈ rows n -> bcv_chapter r <= get_max_chapter rows n) /\
  ((forall r, r ∈ rows n -> 0 <= bcv_chapter r) -> rows n <> [] ->
   exists r, r ∈ rows n /\ bcv_chapter r = get_max_chapter rows n) /\
  ((forall r, r ∈ rows n -> bcv_chapter r <> c) -> get_max_verse rows n c = 0) /\
  (forall r, r ∈ rows n -> bcv_chapter r = c -> bcv_verse r <= get_max_verse rows n c) /\
  ((forall r, r ∈ rows n -> 0 <= bcv_verse r) ->
   (exists r, r ∈ rows n /\ bcv_chapter r = c) ->
   exists r, r ∈ rows n /\ bcv_chapter r = c /\ bcv_verse r = get_max_verse rows n c) /\
  (forall rows', rows' n ≡ₚ rows n ->
     get_max_chapter rows' n = get_max_chapter rows n /\
     get_max_verse rows' n c = get_max_verse rows n c).
Proof.
  rewrite get_max_chapter_scan, get_max_verse_scan.
  repeat split.
  - by intros ->.
  - intros r Hin. by apply (scan_upper (fun _ => true) bcv_chapter).
  - intros Hpos Hne. destruct (rows n) as [|r0 l] eqn:E; [done |].
    destruct (scan_largest (fun _ => true) bcv_chapter (r0 :: l) r0)
      as (r & Hin & _ & Hv); [by auto | by left | done |]. eauto.
  - intros Hno. apply scan_none. intros r Hin. apply Z.eqb_neq. by apply Hno.
  - intros r Hin Hc. apply (scan_upper (fun r => bcv_chapter r =? c) bcv_verse); [done |].
    by apply Z.eqb_eq.
  - intros Hpos (r0 & Hin0 & Hc0).
    destruct (scan_largest (fun r => bcv_chapter r =? c) bcv_verse (rows n) r0)
      as (r & Hin & Hk & Hv); [by auto | done | by apply Z.eqb_eq |].
    exists r. split; [done |]. split; [by apply Z.eqb_eq | done].
  - rewrite get_max_chapter_scan. by apply scan_permutation.
  - rewrite get_max_verse_scan. by apply scan_permutation.
Qed.

Lemma extent_scans_witness :
  (exists r, r ∈ sample_rows 1 /\ bcv_chapter r = get_max_chapter sample_rows 1) /\
  (exists r, r ∈ sample_rows 1 /\ bcv_chapter r = 2 /\
             bcv_verse r = get_max_verse sample_rows 1 2) /\
  get_max_chapter (fun n => reverse (sample_rows n)) 1 = get_max_chapter sample_rows 1 /\
  get_max_verse gap_rows 1 1 = 0 /\
  get_max_chapter sample_rows 1 = 2 /\ get_max_verse sample_rows 1 2 = 3.
Proof.
  destruct (extent_scans sample_rows 1 2) as (_ & _ & H3 & _ & _ & H6 & H7).
  destruct (extent_scans gap_rows 1 1) as (_ & _ & _ & H4 & _).
  split; [| split; [| split; [| split]]].
  - apply H3; [| discriminate].
    intros r Hr. unfold sample_rows in Hr. decompose_list_elem_of; subst; cbn; lia.
  - apply H6.
    + intros r Hr. unfold sample_rows in Hr. decompose_list_elem_of; subst; cbn; lia.
    + exists (Row 2 1). split; [apply list_elem_of_here | reflexivity].
  - apply (H7 (fun n => reverse (sample_rows n))). apply reverse_Permutation.
  - apply H4. intros r Hr. by apply elem_of_nil in Hr.
  - split; reflexivity.
Defined.

(** An address that has a record in the store, with positive chapter and
    verse, is within the extents. *)
Lemma has_record_valid rows b c v :
  b ∈ NEW_TESTAMENT -> 1 <= c -> 1 <= v ->
  has_record rows (book_0 b) c v ->
  valid_address rows (PStr (book_1 b), c, v).
Proof.
  intros Hb Hc Hv (r & Hin & Ec & Ev). exists b.
  split; [done |]. split; [done |].
  rewrite get_max_chapter_scan, get_max_verse_scan. split; (split; [done |]).
  - rewrite <- Ec. by apply (scan_upper (fun _ => true) bcv_chapter).
  - rewrite <- Ev.
    apply (scan_upper (fun r => bcv_chapter r =? c) bcv_verse); [done |].
    by apply Z.eqb_eq.
Qed.

(** ** The user-translation file *)

Lemma py_str_inj m n : py_str m = py_str n -> m = n.
Proof. apply (inj pretty). Qed.

Lemma load_user_translation_lookup file book chapter verse :
  load_user_translation file book chapter verse =
    default ∅ (default ∅ (load_user_translations file !! book) !! py_str chapter)
      !! py_str verse.
Proof. destruct file as [translations|]; [done |]. cbn. by rewrite !lookup_empty. Qed.

Lemma load_after_save file book chapter verse text book' chapter' verse' :
  load_user_translation (save_user_translation file book chapter verse text)
                        book' chapter' verse' =
    if decide ((book', chapter', verse') = (book, chapter, verse)) then Some text
    else load_user_translation file book' chapter' verse'.
Proof.
  rewrite (load_user_translation_lookup file).
  unfold save_user_translation. cbn [load_user_translation].
  generalize (load_user_translations file). intros translations.
  destruct (decide (book' = book)) as [-> | Nb].
  - rewrite lookup_insert_eq. cbn [from_option id].
    destruct (decide (chapter' = chapter)) as [-> | Nc].
    + rewrite lookup_insert_eq. cbn [from_option id].
      destruct (decide (verse' = verse)) as [-> | Nv].
      * rewrite lookup_insert_eq. by rewrite decide_True.
      * rewrite lookup_insert_ne by (intros E; by apply py_str_inj in E).
        rewrite decide_False by congruence. done.
    + rewrite lookup_insert_ne by (intros E; by apply py_str_inj in E).
      rewrite decide_False by congruence. done.
  - rewrite lookup_insert_ne by done.
    rewrite decide_False by congruence. done.
Qed.

(** C10: after [save_user_translation(book, chapter, verse, text)] the entry
    of [(book, chapter, verse)] is [text], every other entry reads as before,
    whatever nesting levels were missing, and every entry that existed still
    exists; the file exists afterwards and the documents of the other books
    are untouched. *)
Theorem save_user_translation_frame file book chapter verse text :
  let file' := save_user_translation file book chapter verse text in
  load_user_translation file' book chapter verse = Some text /\
  (forall book' chapter' verse',
     (book', chapter', verse') <> (book, chapter, verse) ->
     load_user_translation file' book' chapter' verse' =
       load_user_translation file book' chapter' verse') /\
  (forall book' chapter' verse',
     is_Some (load_user_translation file book' chapter' verse') ->
     is_Some (load_user_translation file' book' chapter' verse')) /\
  (exists translations,
     file' = Some translations /\
     forall book', book' <> book ->
       translations !! book' = load_user_translations file !! book').
Proof.
  cbn zeta. split; [| split; [| split]].
  - rewrite load_after_save. by rewrite decide_True.
  - intros book' chapter' verse' Hne. rewrite load_after_save.
    by rewrite decide_False.
  - intros book' chapter' verse' Hs. rewrite load_after_save.
    case_decide; [by eexists | done].
  - eexists. split; [reflexivity |]. intros book' Hne.
    by rewrite lookup_insert_ne.
Qed.

Lemma save_user_translation_frame_witness :
  let file := save_user_translation None "John" 3 16 "For God so loved" in
  let file' := save_user_translation file "John" 3 17 "For God did not send" in
  load_user_translation file' "John" 3 17 = Some "For God did not send" /\
  load_user_translation file' "John" 3 16 = Some "For God so loved" /\
  is_Some (load_user_translation file' "John" 3 16).
Proof.
  cbn zeta.
  destruct (save_user_translation_frame
              (save_user_translation None "John" 3 16 "For God so loved")
              "John" 3 17 "For God did not send") as (H1 & H2 & H3 & _).
  split; [exact H1 |]. split.
  - rewrite H2; [reflexivity | discriminate].
  - apply H3. eexists. reflexivity.
Defined.

(** ** More about the registry *)

Lemma get_book_data_str_spelling s d :
  get_book_data (PStr s) = Some d ->
  exists b, b ∈ NEW_TESTAMENT /\ (s = book_1 b \/ s = book_2 b \/ s = book_4 b) /\
            item0 d = PInt (book_0 b).
Proof.
  cbn [get_book_data]. intros Hd.
  destruct (SHORT_NAME_TO_DATA !! s) as [d1|] eqn:E1.
  { injection Hd as ->. apply dict_of_lookup in E1 as (b & Hb & Hk & ->). eauto 10. }
  destruct (ABBREV_TO_DATA !! s) as [d2|] eqn:E2.
  { injection Hd as ->. apply dict_of_lookup in E2 as (b & Hb & Hk & ->). eauto 10. }
  apply dict_of_lookup in Hd as (b & Hb & Hk & ->). eauto 10.
Qed.

Lemma spelling_resolves s b :
  b ∈ NEW_TESTAMENT -> s = book_1 b \/ s = book_2 b \/ s = book_4 b ->
  item0 <$> get_book_data (PStr s) = Some (PInt (book_0 b)).
Proof.
  intros Hb Hs. apply list_elem_of_lookup in Hb as [idx Hb].
  destruct (registry_entries _ _ Hb) as (_ & _ & _ & H1 & H2 & H4).
  by destruct Hs as [-> | [-> | ->]].
Qed.

(** X1: a string is known to [get_book_data] exactly when it is the short
    name, the abbreviation or the KJV abbreviation of a table entry, and it is
    then answered with the number of every entry that it spells: no string
    spells two books. *)
Theorem string_resolution s :
  (is_Some (get_book_data (PStr s)) <->
   exists b, b ∈ NEW_TESTAMENT /\ (s = book_1 b \/ s = book_2 b \/ s = book_4 b)) /\
  (forall b b',
     b ∈ NEW_TESTAMENT -> b' ∈ NEW_TESTAMENT ->
     s = book_1 b \/ s = book_2 b \/ s = book_4 b ->
     s = book_1 b' \/ s = book_2 b' \/ s = book_4 b' ->
     item0 <$> get_book_data (PStr s) = Some (PInt (book_0 b)) /\ b = b').
Proof.
  split.
  - split.
    + intros [d Hd]. apply get_book_data_str_spelling in Hd as (b & Hb & Hs & _). eauto.
    + intros (b & Hb & Hs). pose proof (spelling_resolves s b Hb Hs) as H.
      destruct (get_book_data (PStr s)); [by eexists | done].
  - intros b b' Hb Hb' Hs Hs'.
    pose proof (spelling_resolves s b Hb Hs) as H.
    pose proof (spelling_resolves s b' Hb' Hs') as H'.
    split; [done |]. rewrite H in H'. injection H' as E.
    apply list_elem_of_lookup in Hb as [i Hi]. apply list_elem_of_lookup in Hb' as [j Hj].
    destruct (registry_entries _ _ Hi) as (Pi & _). destruct (registry_entries _ _ Hj) as (Pj & _).
    assert (i = j) as -> by lia. congruence.
Qed.

Lemma string_resolution_witness :
  item0 <$> get_book_data (PStr "Mark") = Some (PInt 2) /\
  Book 2 "Mark" "Mk" "The Gospel According to Mark" "Mark" =
    Book 2 "Mark" "Mk" "The Gospel According to Mark" "Mark".
Proof.
  apply (proj2 (string_resolution "Mark")
           (Book 2 "Mark" "Mk" "The Gospel According to Mark" "Mark")
           (Book 2 "Mark" "Mk" "The Gospel According to Mark" "Mark")).
  - apply list_elem_of_lookup. by exists 1%nat.
  - apply list_elem_of_lookup. by exists 1%nat.
  - by left.
  - by right; right.
Defined.

(** X2: an integer is known to [get_book_data] exactly when it is between 1
    and 27, and the answer then starts with the full name of the book, not
    with its number. *)
Theorem integer_resolution :
  (forall idx b,
     NEW_TESTAMENT !! idx = Some b ->
     get_book_data (PInt (Z.of_nat idx + 1)) =
       Some (PStr (book_1 b), PStr (book_2 b), PStr (book_4 b))) /\
  (forall n, ~ 1 <= n <= 27 -> get_book_data (PInt n) = None).
Proof.
  split.
  - assert (G : Forall (fun p => get_book_data (PInt (Z.of_nat p.1 + 1)) =
                          Some (PStr (book_1 p.2), PStr (book_2 p.2), PStr (book_4 p.2)))
                       (imap pair NEW_TESTAMENT)).
    { repeat (apply Forall_cons_2; [vm_compute; reflexivity |]). apply Forall_nil_2. }
    intros idx b Hb. rewrite Forall_lookup in G.
    apply (G idx (idx, b)). by rewrite list_lookup_imap, Hb.
  - intros n Hn. destruct (get_book_data (PInt n)) as [d|] eqn:Hd; [| done].
    cbn [get_book_data] in Hd. apply dict_of_lookup in Hd as (b & Hb & Hk & _).
    apply list_elem_of_lookup in Hb as [idx Hb].
    apply registry_position in Hb. lia.
Qed.

Lemma integer_resolution_witness :
  get_book_data (PInt 4) = Some (PStr "John", PStr "Jn", PStr "John") /\
  get_book_data (PInt 28) = None /\ get_book_data (PInt 0) = None.
Proof.
  destruct integer_resolution as [H1 H2].
  split; [exact (H1 3%nat _ eq_refl) |].
  split; apply H2; lia.
Defined.

(** ** More about navigation *)

Lemma is_mode_cases mode :
  is_mode mode \/
  (mode <> "next_verse" /\ mode <> "previous_verse" /\
   mode <> "start_of_chapter" /\ mode <> "start_of_next_chapter").
Proof.
  unfold is_mode.
  destruct (decide (mode = "next_verse")); [by left; left |].
  destruct (decide (mode = "previous_verse")); [by left; right; left |].
  destruct (decide (mode = "start_of_chapter")); [by left; right; right; left |].
  destruct (decide (mode = "start_of_next_chapter")); [by left; right; right; right |].
  by right.
Qed.

Lemma navigate_verse_is_Ok rows cb idx b c v mode :
  resolves cb idx b -> is_mode mode ->
  exists A', navigate_verse rows cb c v mode = Ok A'.
Proof.
  intros Hres [-> | [-> | [-> | ->]]].
  - rewrite (nav_next_verse rows _ _ _ Hres). eauto.
  - rewrite (nav_previous_verse rows _ _ _ Hres). eauto.
  - rewrite (nav_start_of_chapter rows _ _ _ Hres). eauto.
  - rewrite (nav_start_of_next_chapter rows _ _ _ Hres). eauto.
Qed.

(** X3: [navigate_verse] returns an address exactly when the book is a
    string the registry knows and the mode is one of the four directives.  An
    unknown book raises "Unknown book" whatever the mode is; a known book
    with another mode raises "Unknown navigation mode". *)
Theorem navigate_verse_outcome rows cb c v mode :
  ((exists A', navigate_verse rows cb c v mode = Ok A') <->
   (exists idx b, resolves cb idx b) /\ is_mode mode) /\
  (get_book_data cb = None ->
   navigate_verse rows cb c v mode = Raise (ValueError "Unknown book" cb)) /\
  ((exists idx b, resolves cb idx b) -> ~ is_mode mode ->
   navigate_verse rows cb c v mode =
     Raise (ValueError "Unknown navigation mode" (PStr mode))).
Proof.
  assert (Hbad : (exists idx b, resolves cb idx b) -> ~ is_mode mode ->
                 navigate_verse rows cb c v mode =
                   Raise (ValueError "Unknown navigation mode" (PStr mode))).
  { intros (idx & b & Hres) Hm.
    destruct (is_mode_cases mode) as [? | (N1 & N2 & N3 & N4)]; [done |].
    by apply (nav_unknown_mode rows cb idx b). }
  split; [| split; [| exact Hbad]].
  - split.
    + intros [A' HA]. pose proof HA as HA'.
      apply navigate_verse_Ok_resolves in HA' as Hres. split; [done |].
      destruct (is_mode_cases mode) as [? | (N1 & N2 & N3 & N4)]; [done |].
      rewrite Hbad in HA; [done | done |].
      unfold is_mode. intros [? | [? | [? | ?]]]; done.
    + intros [(idx & b & Hres) Hm]. by apply (navigate_verse_is_Ok rows cb idx b).
  - intros Hn. unfold navigate_verse, locate_book. by rewrite Hn.
Qed.

Lemma navigate_verse_outcome_witness :
  navigate_verse sample_rows (PStr "Hezekiah") 1 1 "sideways" =
    Raise (ValueError "Unknown book" (PStr "Hezekiah")) /\
  navigate_verse sample_rows (PStr "Jude") 1 1 "sideways" =
    Raise (ValueError "Unknown navigation mode" (PStr "sideways")) /\
  exists A', navigate_verse sample_rows (PStr "Jude") 1 1 "next_verse" = Ok A'.
Proof.
  assert (R : resolves (PStr "Jude") 25 (Book 26 "Jude" "Jude" "The Letter of Jude" "Jude"))
    by (split; reflexivity).
  split; [| split].
  - apply (proj1 (proj2 (navigate_verse_outcome sample_rows (PStr "Hezekiah") 1 1 "sideways"))).
    reflexivity.
  - apply (proj2 (proj2 (navigate_verse_outcome sample_rows (PStr "Jude") 1 1 "sideways"))).
    + eauto.
    + unfold is_mode. intros [? | [? | [? | ?]]]; discriminate.
  - apply (proj1 (navigate_verse_outcome sample_rows (PStr "Jude") 1 1 "next_verse")).
    split; [eauto |]. by left.
Defined.

(** X4: for an address whose book resolves, PREVIOUS_VERSE decrements a
    verse above 1; otherwise it moves to the last verse of the previous
    chapter when the chapter is above 1; otherwise to the last verse of the
    last chapter of the previous book; otherwise, at the first book, it
    returns the address unchanged. *)
Theorem previous_verse_spec rows cb idx b c v :
  resolves cb idx b ->
  navigate_verse rows cb c v "previous_verse" =
    Ok (if decide (1 < v) then (PStr (book_1 b), c, v - 1)
        else if decide (1 < c) then
          (PStr (book_1 b), c - 1, get_max_verse rows (book_0 b) (c - 1))
        else match prev_book idx with
             | Some pb =>
                 (PStr (book_1 pb), get_max_chapter rows (book_0 pb),
                  get_max_verse rows (book_0 pb) (get_max_chapter rows (book_0 pb)))
             | None => (PStr (book_1 b), c, v)
             end).
Proof. intros Hres. by apply nav_previous_verse. Qed.

Lemma previous_verse_spec_witness :
  navigate_verse sample_rows (PStr "Lk") 1 1 "previous_verse" = Ok (PStr "Mark", 2, 3).
Proof.
  assert (H : resolves (PStr "Lk") 2
                (Book 3 "Luke" "Lk" "The Gospel According to Luke" "Luke"))
    by (split; reflexivity).
  exact (previous_verse_spec sample_rows _ _ _ 1 1 H).
Defined.

(** X5: for an address whose book resolves, START_OF_NEXT_CHAPTER moves to
    verse 1 of the next chapter while the chapter is below the book's
    maximum; otherwise to chapter 1, verse 1 of the next book; otherwise, at
    the last book, it returns the address unchanged. *)
Theorem start_of_next_chapter_spec rows cb idx b c v :
  resolves cb idx b ->
  navigate_verse rows cb c v "start_of_next_chapter" =
    Ok (if decide (c < get_max_chapter rows (book_0 b)) then
          (PStr (book_1 b), c + 1, 1)
        else match next_book idx with
             | Some nb => (PStr (book_1 nb), 1, 1)
             | None => (PStr (book_1 b), c, v)
             end).
Proof. intros Hres. by apply nav_start_of_next_chapter. Qed.

Lemma start_of_next_chapter_spec_witness :
  navigate_verse sample_rows (PStr "Jude") 2 2 "start_of_next_chapter" =
    Ok (PStr "Revelation", 1, 1).
Proof.
  assert (H : resolves (PStr "Jude") 25 (Book 26 "Jude" "Jude" "The Letter of Jude" "Jude"))
    by (split; reflexivity).
  exact (start_of_next_chapter_spec sample_rows _ _ _ 2 2 H).
Defined.

(** X6: NEXT_VERSE and START_OF_NEXT_CHAPTER never move backwards in
    reading order: the result lies strictly after the address, or it is the
    address itself and the book is the last one. *)
Theorem forward_directives_advance rows cb idx b c v mode A' :
  resolves cb idx b ->
  mode = "next_verse" \/ mode = "start_of_next_chapter" ->
  navigate_verse rows cb c v mode = Ok A' ->
  exists p', address_at A' p' /\
             (place_lt (idx, c, v) p' \/ (p' = (idx, c, v) /\ next_book idx = None)).
Proof.
  intros Hres Hm. pose proof (proj1 Hres) as Hb.
  assert (G : forall A'',
    Ok (if decide (c < get_max_chapter rows (book_0 b)) then (PStr (book_1 b), c + 1, 1)
        else match next_book idx with
             | Some nb => (PStr (book_1 nb), 1, 1)
             | None => (PStr (book_1 b), c, v)
             end) = Ok A'' ->
    exists p', address_at A'' p' /\
               (place_lt (idx, c, v) p' \/ (p' = (idx, c, v) /\ next_book idx = None))).
  { intros A''. case_decide.
    - intros [= <-]. exists (idx, c + 1, 1). split; [cbn; eauto |].
      left. cbn. right. split; [done |]. left. lia.
    - destruct (next_book idx) as [nb|] eqn:Hn; intros [= <-].
      + exists (S idx, 1, 1). split; [cbn; eauto |]. left. cbn. left. lia.
      + exists (idx, c, v). split; [cbn; eauto |]. by right. }
  destruct Hm as [-> | ->].
  - rewrite (nav_next_verse rows _ _ _ Hres).
    destruct (decide (v < get_max_verse rows (book_0 b) c)); [| apply G].
    intros [= <-]. exists (idx, c, v + 1). split; [cbn; eauto |].
    left. cbn. right. split; [done |]. right. lia.
  - rewrite (nav_start_of_next_chapter rows _ _ _ Hres). apply G.
Qed.

Lemma forward_directives_advance_witness :
  exists p', address_at (PStr "Mark", 1, 1) p' /\
             (place_lt (0%nat, 2, 3) p' \/ (p' = (0%nat, 2, 3) /\ next_book 0 = None)).
Proof.
  apply (forward_directives_advance sample_rows (PStr "Mt") 0
           (Book 1 "Matthew" "Mt" "The Gospel According to Matthew" "Matt")
           2 3 "next_verse").
  - split; reflexivity.
  - by left.
  - reflexivity.
Defined.

(** X7: PREVIOUS_VERSE, and START_OF_CHAPTER from a verse not below 1,
    never move forwards in reading order: the result lies strictly before the
    address, or it is the address itself and the book is the first one. *)
Theorem backward_directives_retreat rows cb idx b c v mode A' :
  resolves cb idx b ->
  mode = "previous_verse" \/ (mode = "start_of_chapter" /\ 1 <= v) ->
  navigate_verse rows cb c v mode = Ok A' ->
  exists p', address_at A' p' /\
             (place_lt p' (idx, c, v) \/ (p' = (idx, c, v) /\ prev_book idx = None)).
Proof.
  intros Hres Hm. pose proof (proj1 Hres) as Hb.
  destruct Hm as [-> | [-> Hv]].
  - rewrite (nav_previous_verse rows _ _ _ Hres). case_decide; [| case_decide].
    + intros [= <-]. exists (idx, c, v - 1). split; [cbn; eauto |].
      left. cbn. right. split; [done |]. right. lia.
    + intros [= <-]. eexists (idx, c - 1, _). split; [cbn; eauto |].
      left. cbn. right. split; [done |]. left. lia.
    + destruct (prev_book idx) as [pb|] eqn:Hp; intros [= <-].
      * apply prev_book_lookup in Hp as (i & -> & Hpb).
        eexists (i, _, _). split; [cbn; eauto |]. left. cbn. left. lia.
      * exists (idx, c, v). split; [cbn; eauto |]. by right.
  - rewrite (nav_start_of_chapter rows _ _ _ Hres). case_decide; [case_decide |].
    + intros [= <-]. exists (idx, c - 1, 1). split; [cbn; eauto |].
      left. cbn. right. split; [done |]. left. lia.
    + destruct (prev_book idx) as [pb|] eqn:Hp; intros [= <-].
      * apply prev_book_lookup in Hp as (i & -> & Hpb).
        eexists (i, _, 1). split; [cbn; eauto |]. left. cbn. left. lia.
      * exists (idx, c, v). split; [cbn; eauto |]. by right.
    + intros [= <-]. exists (idx, c, 1). split; [cbn; eauto |].
      left. cbn. right. split; [done |]. right. lia.
Qed.

Lemma backward_directives_retreat_witness :
  exists p', address_at (PStr "Matthew", 2, 1) p' /\
             (place_lt p' (0%nat, 2, 3) \/ (p' = (0%nat, 2, 3) /\ prev_book 0 = None)).
Proof.
  apply (backward_directives_retreat sample_rows (PStr "Mt") 0
           (Book 1 "Matthew" "Mt" "The Gospel According to Matthew" "Matt")
           2 3 "start_of_chapter").
  - split; reflexivity.
  - right. split; [reflexivity | lia].
  - reflexivity.
Defined.

(** X8: at or past the last verse of a chapter, NEXT_VERSE does what
    START_OF_NEXT_CHAPTER does. *)
Theorem next_verse_at_chapter_end rows cb idx b c v :
  resolves cb idx b ->
  get_max_verse rows (book_0 b) c <= v ->
  navigate_verse rows cb c v "next_verse" =
    navigate_verse rows cb c v "start_of_next_chapter".
Proof.
  intros Hres Hv.
  rewrite (nav_next_verse rows _ _ _ Hres), (nav_start_of_next_chapter rows _ _ _ Hres).
  case_decide; [lia | done].
Qed.

Lemma next_verse_at_chapter_end_witness :
  navigate_verse sample_rows (PStr "Acts") 1 2 "next_verse" =
    navigate_verse sample_rows (PStr "Acts") 1 2 "start_of_next_chapter".
Proof.
  apply (next_verse_at_chapter_end sample_rows (PStr "Acts") 4
           (Book 5 "Acts" "Acts" "The Acts of the Apostles" "Acts")).
  - split; reflexivity.
  - vm_compute. discriminate.
Defined.

(** X9: START_OF_NEXT_CHAPTER followed by START_OF_CHAPTER leads to verse 1
    of the chapter one started in, for a chapter within the book's extent,
    unless one started at verse 1 of the last chapter of the last book. *)
Theorem next_chapter_then_rewind rows cb idx b c v :
  resolves cb idx b ->
  1 <= c <= get_max_chapter rows (book_0 b) ->
  v <> 1 \/ c < get_max_chapter rows (book_0 b) \/ is_Some (next_book idx) ->
  (navigate_verse rows cb c v "start_of_next_chapter"
     ≫= fun A' => navigate rows A' "start_of_chapter")
  = Ok (PStr (book_1 b), c, 1).
Proof.
  intros Hres Hc Hcase. pose proof (proj1 Hres) as Hb.
  pose proof (resolves_full_name _ _ Hb) as Hfull.
  rewrite (nav_start_of_next_chapter rows _ _ _ Hres).
  destruct (decide (c < get_max_chapter rows (book_0 b))) as [Hlt | Hge].
  { cbn [mbind result_bind navigate].
    rewrite (nav_start_of_chapter rows _ _ _ Hfull).
    repeat case_decide; try lia. by rewrite Z.add_simpl_r. }
  assert (c = get_max_chapter rows (book_0 b)) as Ec by lia.
  destruct (next_book idx) as [nb|] eqn:Hn; cbn [mbind result_bind navigate].
  - rewrite (nav_start_of_chapter rows _ _ _ (resolves_full_name _ _ Hn)).
    repeat case_decide; try lia. cbn [prev_book]. by rewrite Hb, Ec.
  - rewrite (nav_start_of_chapter rows _ _ _ Hfull).
    destruct Hcase as [Hv | [Hlt | [x Hx]]]; [| lia | done].
    by case_decide.
Qed.

Lemma next_chapter_then_rewind_witness :
  (navigate_verse sample_rows (PStr "Gal") 2 2 "start_of_next_chapter"
     ≫= fun A' => navigate sample_rows A' "start_of_chapter")
  = Ok (PStr "Galatians", 2, 1).
Proof.
  apply (next_chapter_then_rewind sample_rows (PStr "Gal") 8
           (Book 9 "Galatians" "Gal" "The Letter to the Galatians" "Gal")).
  - split; reflexivity.
  - vm_compute. split; discriminate.
  - left. discriminate.
Defined.

Lemma get_max_chapter_rows rows rows' n :
  rows n = rows' n -> get_max_chapter rows n = get_max_chapter rows' n.
Proof. intros H. unfold get_max_chapter. by rewrite H. Qed.

Lemma get_max_verse_rows rows rows' n c :
  rows n = rows' n -> get_max_verse rows n c = get_max_verse rows' n c.
Proof. intros H. unfold get_max_verse. by rewrite H. Qed.

(** X10: [navigate_verse] reads the rows of the current book and of the
    book before it, and of no other: two stores that agree on these two
    books give the same result. *)
Theorem navigation_reads_two_books rows rows' cb idx b c v mode :
  resolves cb idx b ->
  rows (book_0 b) = rows' (book_0 b) ->
  (forall pb, prev_book idx = Some pb -> rows (book_0 pb) = rows' (book_0 pb)) ->
  navigate_verse rows cb c v mode = navigate_verse rows' cb c v mode.
Proof.
  intros Hres Hb Hp.
  assert (Hmc := get_max_chapter_rows rows rows' _ Hb).
  assert (Hmv := fun c => get_max_verse_rows rows rows' _ c Hb).
  destruct (is_mode_cases mode) as [[-> | [-> | [-> | ->]]] | (N1 & N2 & N3 & N4)].
  - by rewrite (nav_next_verse rows _ _ _ Hres), (nav_next_verse rows' _ _ _ Hres), Hmc, Hmv.
  - rewrite (nav_previous_verse rows _ _ _ Hres), (nav_previous_verse rows' _ _ _ Hres), Hmv.
    destruct (prev_book idx) as [pb|]; [| done]. specialize (Hp pb eq_refl).
    by rewrite (get_max_chapter_rows rows rows' _ Hp), (get_max_verse_rows rows rows' _ _ Hp).
  - rewrite (nav_start_of_chapter rows _ _ _ Hres), (nav_start_of_chapter rows' _ _ _ Hres).
    destruct (prev_book idx) as [pb|]; [| done]. specialize (Hp pb eq_refl).
    by rewrite (get_max_chapter_rows rows rows' _ Hp).
  - by rewrite (nav_start_of_next_chapter rows _ _ _ Hres),
         (nav_start_of_next_chapter rows' _ _ _ Hres), Hmc.
  - by rewrite (nav_unknown_mode rows _ _ _ Hres), (nav_unknown_mode rows' _ _ _ Hres).
Qed.

Lemma navigation_reads_two_books_witness :
  navigate_verse gap_rows (PStr "Luke") 1 1 "previous_verse" =
    navigate_verse sample_rows (PStr "Luke") 1 1 "previous_verse".
Proof.
  apply (navigation_reads_two_books gap_rows sample_rows (PStr "Luke") 2
           (Book 3 "Luke" "Lk" "The Gospel According to Luke" "Luke")).
  - split; reflexivity.
  - reflexivity.
  - intros pb [= <-]. reflexivity.
Defined.

(** X11: both extents are never negative, a chapter beyond
    [get_max_chapter] has [get_max_verse] 0, and so a chapter with a positive
    [get_max_verse] is not beyond [get_max_chapter]. *)
Theorem extents_agree rows n c :
  0 <= get_max_chapter rows n /\ 0 <= get_max_verse rows n c /\
  (get_max_chapter rows n < c -> get_max_verse rows n c = 0) /\
  (0 < get_max_verse rows n c -> c <= get_max_chapter rows n).
Proof.
  assert (G : get_max_chapter rows n < c -> get_max_verse rows n c = 0).
  { rewrite get_max_verse_scan. intros Hc. apply scan_none. intros r Hin.
    apply Z.eqb_neq. intros E.
    pose proof (scan_upper (fun _ => true) bcv_chapter (rows n) 0 r Hin eq_refl) as Hu.
    rewrite <- get_max_chapter_scan in Hu. lia. }
  split; [rewrite get_max_chapter_scan; apply scan_lower |].
  split; [rewrite get_max_verse_scan; apply scan_lower |].
  split; [exact G |].
  intros Hpos. destruct (decide (c <= get_max_chapter rows n)); [done |].
  rewrite G in Hpos; lia.
Qed.

Lemma extents_agree_witness :
  get_max_verse sample_rows 1 3 = 0 /\ 2 <= get_max_chapter sample_rows 1.
Proof.
  split.
  - apply (proj1 (proj2 (proj2 (extents_agree sample_rows 1 3)))).
    vm_compute. reflexivity.
  - apply (proj2 (proj2 (proj2 (extents_agree sample_rows 1 2)))).
    vm_compute. reflexivity.
Defined.

(** ** More about the user-translation file *)

(** X12: saving twice at the same address keeps the second text only. *)
Theorem save_overwrites file book chapter verse text1 text2 :
  save_user_translation (save_user_translation file book chapter verse text1)
                        book chapter verse text2
  = save_user_translation file book chapter verse text2.
Proof.
  unfold save_user_translation. cbn [load_user_translations].
  generalize (load_user_translations file). intros translations.
  rewrite lookup_insert_eq. cbn [from_option id].
  rewrite lookup_insert_eq. cbn [from_option id].
  by rewrite !insert_insert_eq.
Qed.

(** X13: two saves at different addresses can be made in either order
    without changing what is read back: [load_user_translation] returns the
    same for every address.  (The order of the keys in the written file is
    not part of this.) *)
Theorem save_order_is_not_read file book chapter verse text book' chapter' verse' text' :
  (book, chapter, verse) <> (book', chapter', verse') ->
  forall rbook rchapter rverse,
    load_user_translation
      (save_user_translation (save_user_translation file book chapter verse text)
                             book' chapter' verse' text')
      rbook rchapter rverse
    = load_user_translation
        (save_user_translation (save_user_translation file book' chapter' verse' text')
                               book chapter verse text)
        rbook rchapter rverse.
Proof.
  intros Hne rbook rchapter rverse. rewrite !load_after_save.
  repeat case_decide; congruence.
Qed.

Lemma save_order_is_not_read_witness :
  load_user_translation
    (save_user_translation (save_user_translation None "John" 3 16 "a") "Mark" 1 1 "b")
    "John" 3 16
  = load_user_translation
      (save_user_translation (save_user_translation None "Mark" 1 1 "b") "John" 3 16 "a")
      "John" 3 16.
Proof. apply save_order_is_not_read. discriminate. Defined.

(** X14: saving the text that is already stored leaves the file as it
    is. *)
Theorem save_stored_text_is_identity file book chapter verse text :
  load_user_translation file book chapter verse = Some text ->
  save_user_translation file book chapter verse text = file.
Proof.
  destruct file as [translations|]; [| done].
  unfold load_user_translation, save_user_translation. cbn [load_user_translations].
  destruct (translations !! book) as [chapters|] eqn:Eb; cbn [from_option id];
    [| by rewrite !lookup_empty].
  destruct (chapters !! py_str chapter) as [verses|] eqn:Ec; cbn [from_option id];
    [| by rewrite lookup_empty].
  intros Ev. f_equal. by rewrite (insert_id verses), (insert_id chapters), insert_id.
Qed.

Lemma save_stored_text_is_identity_witness :
  let file := save_user_translation None "John" 3 16 "a" in
  save_user_translation file "John" 3 16 "a" = file.
Proof. cbn zeta. apply save_stored_text_is_identity. reflexivity. Defined.

(** ** The export range *)

(** X15: [in_range] accepts exactly the chapter and verse pairs that lie, in
    reading order, between the start pair and the end pair, both included. *)
Theorem in_range_is_interval start_chapter start_verse end_chapter end_verse ch vs :
  in_range start_chapter start_verse end_chapter end_verse ch vs = true <->
  (start_chapter < ch \/ (start_chapter = ch /\ start_verse <= vs)) /\
  (ch < end_chapter \/ (ch = end_chapter /\ vs <= end_verse)).
Proof.
  unfold in_range. rewrite !Z.gtb_ltb.
  destruct (Z.ltb_spec ch start_chapter), (Z.ltb_spec end_chapter ch),
    (Z.eqb_spec ch start_chapter), (Z.eqb_spec ch end_chapter),
    (Z.ltb_spec vs start_verse), (Z.ltb_spec end_verse vs);
    cbn [orb andb]; split; try discriminate; try lia; done.
Qed.

Lemma in_range_is_interval_witness :
  in_range 1 5 3 2 2 9 = true /\ in_range 1 5 3 2 3 3 <> true.
Proof.
  split.
  - apply (proj2 (in_range_is_interval 1 5 3 2 2 9)). lia.
  - intros H. apply (proj1 (in_range_is_interval 1 5 3 2 3 3)) in H. lia.
Defined.

(** ** Chunks *)

Lemma py_slice_chunk {A : Type} (lst : list A) (k : nat) (n : Z) :
  0 < n -> (k * Z.to_nat n < length lst)%nat ->
  py_slice lst (0 + (Z.of_nat k + 0) * n) (0 + (Z.of_nat k + 0) * n + n)
  = take (Z.to_nat n) (drop (k * Z.to_nat n) lst).
Proof.
  intros Hn Hk. unfold py_slice, slice_index.
  replace (0 + (Z.of_nat k + 0) * n) with (Z.of_nat (k * Z.to_nat n)) by lia.
  set (i := (k * Z.to_nat n)%nat) in *.
  destruct (Z.ltb_spec (Z.of_nat i) 0); [lia |].
  destruct (Z.ltb_spec (Z.of_nat i + n) 0); [lia |].
  rewrite (Z.min_l (Z.of_nat i)) by lia. rewrite Nat2Z.id.
  destruct (Z.min_spec (Z.of_nat i + n) (Z.of_nat (length lst))) as [[_ ->] | [Hge ->]].
  - f_equal. lia.
  - rewrite !take_ge; [done | |]; rewrite length_drop; lia.
Qed.

Lemma chunk_count (len n : Z) (k : nat) :
  0 < n -> 0 <= len ->
  (k < Z.to_nat ((len + n - 1) / n))%nat -> Z.of_nat k * n < len.
Proof.
  intros Hn Hlen Hk.
  assert (0 <= (len + n - 1) / n) by (apply Z.div_pos; lia).
  pose proof (Z.mul_div_le (len + n - 1) n Hn). nia.
Qed.

Lemma chunks_positive {A : Type} (lst : list A) (n : Z) :
  0 < n ->
  chunks lst n =
    Ok ((fun k => take (Z.to_nat n) (drop (k * Z.to_nat n) lst))
          <$> seq 0 (Z.to_nat ((Z.of_nat (length lst) + n - 1) / n))).
Proof.
  intros Hn. unfold chunks, py_range.
  destruct (Z.eqb_spec n 0); [lia |]. destruct (Z.ltb_spec 0 n); [| lia].
  f_equal. unfold seqZ. rewrite <- !list_fmap_compose.
  replace (Z.of_nat (length lst) - 0 + n - 1) with (Z.of_nat (length lst) + n - 1) by lia.
  apply list_fmap_ext. intros i k Hk. apply lookup_seq in Hk as [-> Hk]. cbn [Nat.add].
  cbn [compose]. apply py_slice_chunk; [done |].
  pose proof (chunk_count (Z.of_nat (length lst)) n i Hn ltac:(lia) Hk). nia.
Qed.

Lemma concat_chunks {A : Type} (lst : list A) (n m : nat) :
  concat ((fun k => take n (drop (k * n) lst)) <$> seq 0 m) = take (m * n) lst.
Proof.
  induction m as [|m IH]; [done |].
  rewrite seq_S, fmap_app, concat_app, IH. cbn [Nat.add fmap list_fmap concat].
  rewrite app_nil_r, take_take_drop. f_equal. lia.
Qed.

(** X16: for a positive [n], [chunks(lst, n)] cuts [lst] into consecutive
    pieces: put together again they give [lst]; there are [len / n], rounded
    up, of them; every piece has between 1 and [n] elements and every piece
    but the last has [n]. *)
Theorem chunks_partition {A : Type} (lst : list A) (n : Z) :
  0 < n ->
  exists cs,
    chunks lst n = Ok cs /\
    concat cs = lst /\
    Z.of_nat (length cs) = (Z.of_nat (length lst) + n - 1) / n /\
    (forall i c, cs !! i = Some c ->
       1 <= Z.of_nat (length c) <= n /\
       ((S i < length cs)%nat -> Z.of_nat (length c) = n)).
Proof.
  intros Hn. eexists. split; [by apply chunks_positive |].
  set (L := Z.of_nat (length lst)). set (m := Z.to_nat ((L + n - 1) / n)).
  assert (0 <= (L + n - 1) / n) as Hm0 by (apply Z.div_pos; lia).
  split; [| split].
  - rewrite concat_chunks. apply take_ge.
    assert (L + n - 1 < n * ((L + n - 1) / n) + n) as Hup.
    { pose proof (Z.mod_pos_bound (L + n - 1) n Hn).
      pose proof (Z.div_mod (L + n - 1) n ltac:(lia)). lia. }
    subst L m. nia.
  - rewrite length_fmap, length_seq. subst m. lia.
  - intros i c Hc. rewrite length_fmap, length_seq.
    apply list_lookup_fmap_Some in Hc as (k & -> & Hk).
    apply lookup_seq in Hk as [-> Hk]. cbn [Nat.add].
    pose proof (chunk_count L n i Hn ltac:(lia) Hk) as Hlt.
    rewrite length_take, length_drop. split; [subst L; nia |].
    intros Hi. pose proof (chunk_count L n (S i) Hn ltac:(lia) Hi). subst L. nia.
Qed.

Lemma chunks_partition_witness :
  exists cs,
    chunks [1; 2; 3; 4; 5; 6; 7] 3 = Ok cs /\
    concat cs = [1; 2; 3; 4; 5; 6; 7] /\
    Z.of_nat (length cs) = (Z.of_nat (length [1; 2; 3; 4; 5; 6; 7]) + 3 - 1) / 3 /\
    (forall i c, cs !! i = Some c ->
       1 <= Z.of_nat (length c) <= 3 /\
       ((S i < length cs)%nat -> Z.of_nat (length c) = 3)).
Proof. apply (chunks_partition [1; 2; 3; 4; 5; 6; 7] 3). lia. Defined.

(** X17: [chunks] raises [ValueError] for [n = 0], yields nothing for a
    negative [n], and yields nothing for an empty list when [n] is not 0. *)
Theorem chunks_edge_cases {A : Type} (lst : list A) (n : Z) :
  chunks lst 0 = Raise (ValueError "range() arg 3 must not be zero" (PInt 0)) /\
  (n < 0 -> chunks lst n = Ok []) /\
  (n <> 0 -> chunks (@nil A) n = Ok []).
Proof.
  assert (Hneg : forall l : list A, n < 0 -> chunks l n = Ok []).
  { intros l Hn. unfold chunks, py_range.
    destruct (Z.eqb_spec n 0); [lia |]. destruct (Z.ltb_spec 0 n); [lia |].
    rewrite seqZ_nil; [done |].
    assert ((0 - Z.of_nat (length l) - n - 1) / - n < 1); [| lia].
    apply Z.div_lt_upper_bound; lia. }
  split; [done |]. split; [apply Hneg |].
  intros Hn. destruct (decide (n < 0)) as [Hlt | Hge]; [by apply Hneg |].
  rewrite chunks_positive by lia. cbn [length].
  rewrite Z.div_small by lia. done.
Qed.

Lemma chunks_edge_cases_witness :
  chunks [1; 2; 3] (-2) = Ok [] /\ chunks (@nil Z) 4 = Ok [].
Proof.
  split.
  - apply (proj1 (proj2 (chunks_edge_cases [1; 2; 3] (-2)))). lia.
  - apply (proj2 (proj2 (chunks_edge_cases (@nil Z) 4))). lia.
Defined.

(** ** Parsing codes *)

Lemma string_length_append s t :
  String.length (String.append s t) = (String.length s + String.length t)%nat.
Proof.
  induction s as [|a s IH]; [done |].
  change (S (String.length (String.append s t)) =
          S (String.length s + String.length t)).
  by rewrite IH.
Qed.

Lemma parse_step_dash s i mapping res :
  (forall ch, String.get i s = Some ch -> ch = "-"%char) ->
  parse_step s i mapping res = res.
Proof.
  intros H. unfold parse_step.
  destruct (i <? String.length s)%nat; [| done].
  destruct (String.get i s) as [ch|]; [| done].
  by rewrite (H ch eq_refl).
Qed.

Lemma parse_loop_dash s table i res :
  (forall j ch, (i <= j < i + length table)%nat ->
                String.get j s = Some ch -> ch = "-"%char) ->
  parse_loop s table i res = res.
Proof.
  revert i res. induction table as [|[label mapping] rest IH]; intros i res H; [done |].
  cbn [parse_loop]. rewrite parse_step_dash.
  - apply IH. intros j ch Hj. apply H. cbn [length]. lia.
  - intros ch. apply H. cbn [length]. lia.
Qed.

(** X18: a parsing code whose first eight characters are all dashes, the
    empty code among them, is returned as it is. *)
Theorem interpret_ccat_parse_dashes s :
  (forall j ch, (j < 8)%nat -> String.get j s = Some ch -> ch = "-"%char) ->
  interpret_ccat_parse s = s.
Proof.
  intros H. unfold interpret_ccat_parse. rewrite parse_loop_dash; [done |].
  intros j ch Hj. apply H. cbn in Hj. lia.
Qed.

Lemma interpret_ccat_parse_dashes_witness :
  interpret_ccat_parse "--------" = "--------".
Proof.
  apply interpret_ccat_parse_dashes. intros j ch Hj.
  do 8 (destruct j as [|j]; [by intros [= <-] |]). lia.
Defined.

Lemma parse_step_prefix s t i mapping res :
  (i < String.length s)%nat ->
  parse_step (String.append s t) i mapping res = parse_step s i mapping res.
Proof.
  intros Hi. unfold parse_step.
  rewrite <- (String.append_correct1 s t i Hi), string_length_append.
  destruct (Nat.ltb_spec i (String.length s)); [| lia].
  destruct (Nat.ltb_spec i (String.length s + String.length t)); [done | lia].
Qed.

Lemma parse_loop_prefix s t table i res :
  (i + length table <= String.length s)%nat ->
  parse_loop (String.append s t) table i res = parse_loop s table i res.
Proof.
  revert i res. induction table as [|[label mapping] rest IH]; intros i res H; [done |].
  cbn [parse_loop]. cbn [length] in H.
  rewrite parse_step_prefix by lia. apply IH. lia.
Qed.

(** X19: only the first eight characters of a parsing code are looked at:
    when a code of at least eight characters is interpreted, characters
    added after it do not change the description. *)
Theorem interpret_ccat_parse_first_eight s t :
  (8 <= String.length s)%nat ->
  interpret_ccat_parse s <> s ->
  interpret_ccat_parse (String.append s t) = interpret_ccat_parse s.
Proof.
  intros Hlen Hint. unfold interpret_ccat_parse in *.
  rewrite parse_loop_prefix by (cbn; lia).
  by destruct (parse_loop s parse_map 0 []).
Qed.

Lemma interpret_ccat_parse_first_eight_witness :
  interpret_ccat_parse (String.append "3AAI-S--" "xyz") =
    "3rd person, aorist, active, indicative, singular".
Proof.
  rewrite (interpret_ccat_parse_first_eight "3AAI-S--" "xyz").
  - reflexivity.
  - cbn. lia.
  - vm_compute. discriminate.
Defined.

Lemma parse_step_nonempty s i mapping res :
  Forall (fun value => value <> "") res ->
  Forall (fun value => value <> "") (parse_step s i mapping res).
Proof.
  intros H. unfold parse_step.
  destruct (i <? String.length s)%nat; [| done].
  destruct (String.get i s) as [ch|]; [| done].
  destruct (negb _); [| done].
  destruct (mapping !! _) as [value|]; [| done].
  destruct (String.eqb_spec value ""); cbn [negb]; [done |].
  apply Forall_app. split; [done |]. by apply Forall_singleton.
Qed.

Lemma parse_loop_nonempty s table i res :
  Forall (fun value => value <> "") res ->
  Forall (fun value => value <> "") (parse_loop s table i res).
Proof.
  revert i res. induction table as [|[label mapping] rest IH]; intros i res H; [done |].
  cbn [parse_loop]. by apply IH, parse_step_nonempty.
Qed.

(** X20: the description of a parsing code is empty only for the empty
    code. *)
Theorem interpret_ccat_parse_empty s :
  interpret_ccat_parse s = "" <-> s = "".
Proof.
  split; [| by intros ->].
  unfold interpret_ccat_parse.
  pose proof (parse_loop_nonempty s parse_map 0 [] (Forall_nil_2 _)) as H.
  destruct (parse_loop s parse_map 0 []) as [|value rest]; [done |].
  apply Forall_cons in H as [Hv _].
  destruct value as [|a value]; [done |].
  destruct rest; cbn; discriminate.
Qed.

Lemma interpret_ccat_parse_empty_witness :
  interpret_ccat_parse "" = "" /\ interpret_ccat_parse "----NSF-" <> "".
Proof.
  split.
  - by apply (proj2 (interpret_ccat_parse_empty "")).
  - intros H. apply (proj1 (interpret_ccat_parse_empty "----NSF-")) in H. discriminate H.
Defined.

(** ** The Greek text of a verse *)

Lemma omap_never {A B : Type} (f : A -> option B) (l : list A) :
  (forall x, f x = None) -> omap f l = [].
Proof. intros H. induction l as [|x l IH]; cbn; [done |]. by rewrite H. Qed.

(** X21: an address for which [get_greek_text] returns at least one word
    (the test of the GUI before it accepts an address) has a book that
    resolves, and its chapter and verse are within the extents that
    navigation computes from the same provider; with a positive chapter and
    verse it is a valid address. *)
Theorem accepted_address_is_within_extents
    morphgnt_rows morphgnt_rows_str book c v w ws :
  get_greek_text morphgnt_rows morphgnt_rows_str book c v = GreekWords (w :: ws) ->
  exists idx b,
    resolves book idx b /\
    c <= get_max_chapter (nav_rows morphgnt_rows) (book_0 b) /\
    v <= get_max_verse (nav_rows morphgnt_rows) (book_0 b) c /\
    (1 <= c -> 1 <= v ->
     valid_address (nav_rows morphgnt_rows) (PStr (book_1 b), c, v)).
Proof.
  unfold get_greek_text.
  destruct (get_book_data book) as [d|] eqn:Hd; [| done].
  destruct (item0 d) as [n|s] eqn:H0.
  2:{ destruct (morphgnt_rows_str s); [| done]. by rewrite omap_never. }
  destruct book as [m|s].
  { destruct (get_book_data_int m d Hd) as [s Hs]. congruence. }
  destruct (get_book_data_str s d Hd) as (idx & b & Hb & Hn).
  assert (n = book_0 b) as -> by congruence.
  intros Hw. exists idx, b.
  assert (Hres : resolves (PStr s) idx b) by (split; [done | by rewrite Hd; cbn; rewrite Hn]).
  split; [done |].
  assert (Hrec : has_record (nav_rows morphgnt_rows) (book_0 b) c v).
  { assert (w ∈ w :: ws) as Hin by left. injection Hw as Hw. rewrite <- Hw in Hin.
    apply list_elem_of_omap in Hin as (r & Hr & Hf).
    destruct (mr_book r =? book_0 b), (Z.eqb_spec (mr_chapter r) c),
      (Z.eqb_spec (mr_verse r) v); cbn in Hf; try discriminate Hf.
    exists (nav_row r). split; [by apply list_elem_of_fmap_2 |]. done. }
  assert (Hbounds : c <= get_max_chapter (nav_rows morphgnt_rows) (book_0 b) /\
                    v <= get_max_verse (nav_rows morphgnt_rows) (book_0 b) c).
  { destruct Hrec as (r & Hin & Ec & Ev).
    rewrite get_max_chapter_scan, get_max_verse_scan. split.
    - rewrite <- Ec. by apply (scan_upper (fun _ => true) bcv_chapter).
    - rewrite <- Ev.
      apply (scan_upper (fun r => bcv_chapter r =? c) bcv_verse); [done |].
      by apply Z.eqb_eq. }
  split; [apply Hbounds |]. split; [apply Hbounds |].
  intros Hc Hv. exists b. split; [by apply list_elem_of_lookup; exists idx |].
  split; [done |]. lia.
Qed.

Lemma accepted_address_is_within_extents_witness :
  exists idx b,
    resolves (PStr "Jn") idx b /\
    3 <= get_max_chapter (nav_rows (fun _ => [MorphgntRow 4 3 16 "a" "b" "c" "N-" "----NSF-"]))
           (book_0 b) /\
    16 <= get_max_verse (nav_rows (fun _ => [MorphgntRow 4 3 16 "a" "b" "c" "N-" "----NSF-"]))
            (book_0 b) 3 /\
    (1 <= 3 -> 1 <= 16 ->
     valid_address (nav_rows (fun _ => [MorphgntRow 4 3 16 "a" "b" "c" "N-" "----NSF-"]))
       (PStr (book_1 b), 3, 16)).
Proof.
  apply (accepted_address_is_within_extents
           (fun _ => [MorphgntRow 4 3 16 "a" "b" "c" "N-" "----NSF-"])
           (fun _ => None) (PStr "Jn") 3 16 (VerseWord "a" "b" "c" "N-" "----NSF-") []).
  reflexivity.
Defined.

(** X22: [get_greek_text] fails with a [TypeError] for a book the registry
    does not know, and for a book given as an integer it never returns a
    word, whatever the provider holds. *)
Theorem get_greek_text_rejects morphgnt_rows morphgnt_rows_str book c v :
  (get_book_data book = None ->
   get_greek_text morphgnt_rows morphgnt_rows_str book c v = GreekTypeError) /\
  (forall n w ws,
     get_greek_text morphgnt_rows morphgnt_rows_str (PInt n) c v <> GreekWords (w :: ws)).
Proof.
  split.
  - intros Hn. unfold get_greek_text. by rewrite Hn.
  - intros n w ws. unfold get_greek_text.
    destruct (get_book_data (PInt n)) as [d|] eqn:Hd; [| done].
    destruct (get_book_data_int n d Hd) as [s ->].
    destruct (morphgnt_rows_str s); [| done]. by rewrite omap_never.
Qed.

Lemma get_greek_text_rejects_witness :
  get_greek_text (fun _ => []) (fun _ => None) (PStr "Hezekiah") 1 1 = GreekTypeError.
Proof.
  apply (proj1 (get_greek_text_rejects (fun _ => []) (fun _ => None) (PStr "Hezekiah") 1 1)).
  reflexivity.
Defined.
